(** * mbxaspy: process pools, work distribution and the maximum reduction

    A shallow embedding of [para_defs.py] (classes [para_class] and
    [pool_class]) and of the brightest-transition search of [rixs.py]
    ([rixs_f1]), with the properties of the pool topology, of the two
    spin/k-point assignment policies and of the MAX all-reduce.

    Python integers are unbounded, hence [Z].  Attributes that an object
    acquires only when a method runs are [option] fields ([None] = the
    attribute does not exist yet).  Exceptions are the [Raise] results of a
    small error monad. *)

From Stdlib Require Import String Ascii DecimalString ZArith List Bool Lia
  Permutation Sorted.
Import ListNotations.
Open Scope Z_scope.

(** ** Python primitives used by the two source files *)

Module Py.

Inductive exn : Type :=
| ZeroDivisionError
| AttributeError (attr : string).

Inductive result (A : Type) : Type :=
| Ok (a : A)
| Raise (e : exn).
Arguments Ok {A} a.
Arguments Raise {A} e.

Definition bind {A B : Type} (m : result A) (f : A -> result B) : result B :=
  match m with
  | Ok a => f a
  | Raise e => Raise e
  end.

(** [obj.attr] for an attribute that may not have been created yet. *)
Definition getattr {A : Type} (field : option A) (attr : string) : result A :=
  match field with
  | Some a => Ok a
  | None => Raise (AttributeError attr)
  end.

(** [int(a / b)]: true division followed by truncation towards zero
    (with the floor division of Python 2 the two agree whenever the
    operands are non-negative, see [int_truediv_floor]). *)
Definition int_truediv (a b : Z) : result Z :=
  if b =? 0 then Raise ZeroDivisionError else Ok (Z.quot a b).

(** [a % b]: the sign of the result follows the divisor, as [Z.modulo]. *)
Definition mod_ (a b : Z) : result Z :=
  if b =? 0 then Raise ZeroDivisionError else Ok (a mod b).

(** [range(a, b)] and [range(n)]. *)
Definition range2 (a b : Z) : list Z :=
  map (fun j => a + Z.of_nat j) (seq 0 (Z.to_nat (b - a))).

Definition range (n : Z) : list Z := range2 0 n.

(** [range(a, b, step)] for a positive [step]. *)
Definition range3 (a b step : Z) : list Z :=
  map (fun j => a + step * Z.of_nat j)
      (seq 0 (Z.to_nat ((b - a + step - 1) / step))).

(** [for x in l: body], threading the mutated state and stopping at the
    first exception. *)
Fixpoint for_ {A S : Type} (l : list A) (body : A -> S -> result S) (st : S)
  : result S :=
  match l with
  | [] => Ok st
  | x :: l' => bind (body x st) (for_ l' body)
  end.

(** [int(b)] of a boolean. *)
Definition int_of_bool (b : bool) : Z := if b then 1 else 0.

(** [[ir for ir, r in enumerate(l) if r == 0]], counting from [start]. *)
Fixpoint zero_positions (start : Z) (l : list Z) : list Z :=
  match l with
  | [] => []
  | r :: l' =>
      if r =? 0 then start :: zero_positions (start + 1) l'
      else zero_positions (start + 1) l'
  end.

End Py.

Notation "x <- m ;; f" := (Py.bind m (fun x => f))
  (at level 61, m at next level, right associativity).

(** ** The part of MPI the pools rely on

    A communicator is the list of the world ranks of its members, in the
    order of their ranks inside the communicator.  Every process of the
    world runs the same program with the same arguments, so the value a peer
    contributes to a collective is what the same code computes for the
    peer's rank. *)

Module MPI.

Inductive Comm : Type :=
| COMM_NULL
| Intracomm (members : list Z).

Definition members_of (c : Comm) : list Z :=
  match c with
  | COMM_NULL => []
  | Intracomm ms => ms
  end.

(** Position of [x] in [l] (the caller of [Get_rank] is always a member). *)
Fixpoint index (x : Z) (l : list Z) : Z :=
  match l with
  | [] => 0
  | y :: l' => if y =? x then 0 else 1 + index x l'
  end.

Definition Get_size (c : Comm) : Z := Z.of_nat (length (members_of c)).

Definition Get_rank (c : Comm) (me : Z) : Z := index me (members_of c).

(** [comm.Split(color, key)] where every process passes its own world rank
    as [key]: the new communicator of [me] holds the processes of the same
    colour, ordered by key, that is in world order.  A peer whose code
    raised before the call takes no part ([None]). *)
Definition Split (world : list Z) (color : Z -> option Z) (me : Z) : Comm :=
  Intracomm
    (filter (fun r =>
               match color r, color me with
               | Some c, Some c' => c =? c'
               | _, _ => false
               end) world).

(** [comm.gather(v, root = 0)] followed by [comm.bcast(_, root = 0)]: the
    list of the values of all processes, in world order, on every process. *)
Definition gather_bcast {A : Type} (world : list Z) (value : Z -> A) : list A :=
  map value world.

(** [comm.Create_group(Group.Incl(comm.Get_group(), ranks))]. *)
Definition Create_group (ranks : list Z) (me : Z) : Comm :=
  if existsb (Z.eqb me) ranks then Intracomm ranks else COMM_NULL.

(** [bool(comm)]: a communicator handle is true unless it is [COMM_NULL]. *)
Definition is_valid (c : Comm) : bool :=
  match c with
  | COMM_NULL => false
  | Intracomm _ => true
  end.

(** [comm.gather(v, root = 0)] as seen by the process [me], [value r] being
    what the member of world rank [r] passes: the list of the values in
    communicator order on the member of rank 0, [None] on the others. *)
Definition gather {A : Type} (c : Comm) (value : Z -> A) (me : Z)
  : option (list A) :=
  if Get_rank c me =? 0 then Some (map value (members_of c)) else None.

(** [comm.bcast(v, root = 0)], [value r] being what the member of world rank
    [r] holds before the call: every member receives the value of the member
    of rank 0. *)
Definition bcast {A : Type} (c : Comm) (value : Z -> A) (own : A) : A :=
  match members_of c with
  | r0 :: _ => value r0
  | [] => own
  end.

End MPI.

(** ** Python primitives of the reporting methods

    The exceptions of [Py] and the further ones that indexing and [max] can
    raise. *)

Module PyX.

Inductive exn : Type :=
| Base (e : Py.exn)
| IndexError
| ValueError
| TypeError.

Inductive result (A : Type) : Type :=
| Ok (a : A)
| Raise (e : exn).
Arguments Ok {A} a.
Arguments Raise {A} e.

Definition bind {A B : Type} (m : result A) (f : A -> result B) : result B :=
  match m with
  | Ok a => f a
  | Raise e => Raise e
  end.

Definition lift {A : Type} (r : Py.result A) : result A :=
  match r with
  | Py.Ok a => Ok a
  | Py.Raise e => Raise (Base e)
  end.

(** [l[i]], a negative index counting from the end. *)
Definition getitem {A : Type} (l : list A) (i : Z) : result A :=
  let i' := if i <? 0 then i + Z.of_nat (length l) else i in
  if i' <? 0 then Raise IndexError
  else match nth_error l (Z.to_nat i') with
       | Some x => Ok x
       | None => Raise IndexError
       end.

(** [max(l)] of a list of integers. *)
Definition max_of (l : list Z) : result Z :=
  match l with
  | [] => Raise ValueError
  | x :: xs => Ok (fold_left Z.max xs x)
  end.

(** [for x in l: body]. *)
Fixpoint for_ {A S : Type} (l : list A) (body : A -> S -> result S) (st : S)
  : result S :=
  match l with
  | [] => Ok st
  | x :: l' => bind (body x st) (for_ l' body)
  end.

End PyX.

Notation "x <-- m ;; f" := (PyX.bind m (fun x => f))
  (at level 61, m at next level, right associativity).

(** ** [para_class] *)

Module para_class.

(** [comm] is [true] for [MPI.COMM_WORLD] and [false] for [None]. *)
Record t : Type := mk {
  comm : bool;
  size : Z;
  rank : Z
}.

(** [para_class.__init__(MPI = None)]. *)
Definition init_serial : t := {| comm := false; size := 1; rank := 0 |}.

(** [para_class.__init__(MPI)] on the process of world rank [r] out of [P]. *)
Definition init_mpi (P r : Z) : t := {| comm := true; size := P; rank := r |}.

End para_class.

(** ** [pool_class] *)

Module pool_class.

Record t : Type := mk {
  para : para_class.t;
  pool_list : list (list Z);
  up : bool;
  msg : string;
  (* attributes created by set_pool *)
  npp : option Z;
  n : option Z;
  i : option Z;
  comm : option (option MPI.Comm);
  size : option Z;
  rank : option Z;
  roots : option (list Z);
  rootcomm : option (option MPI.Comm);
  (* attributes created by set_sk_list_v1 / set_sk_list *)
  nspin : option Z;
  nk : option Z;
  nk_use : option Z;
  sk_list : option (list (Z * Z));
  sk_offset : option (list Z);
  nsk : option Z
}.

(** [pool_class.__init__(para)]. *)
Definition __init__ (p : para_class.t) : t :=
  {| para := p; pool_list := []; up := false; msg := EmptyString;
     npp := None; n := None; i := None; comm := None; size := None;
     rank := None; roots := None; rootcomm := None;
     nspin := None; nk := None; nk_use := None;
     sk_list := None; sk_offset := None; nsk := None |}.

(** The first half of the guarded body of [set_pool] (the assignments to
    [self.npp], [self.n] and [self.i]) as run by the process of world rank
    [rank] among [size] processes. *)
Definition topology (size rank nproc_per_pool : Z) (remainder_mode : bool)
  : Py.result (Z * Z * Z) :=
  let npp := nproc_per_pool in
  let npp := if size <? npp then size else npp in
  n <- Py.int_truediv size npp ;;
  i <- (if remainder_mode then
          Py.mod_ rank n
        else
          res <- Py.mod_ size npp ;;
          if rank <? res * (npp + 1) then
            Py.int_truediv rank (npp + 1)
          else
            q <- Py.int_truediv (rank - res * (npp + 1)) npp ;;
            Py.Ok (q + res)) ;;
  Py.Ok (npp, n, i).

(** The colour a peer passes to [comm.Split]: [para.rank % self.n] in
    remainder mode and [self.i] in contiguous mode. *)
Definition split_color (size nproc_per_pool : Z) (remainder_mode : bool)
           (peer : Z) : option Z :=
  match topology size peer nproc_per_pool remainder_mode with
  | Py.Ok (_, n, i) =>
      if remainder_mode then
        match Py.mod_ peer n with Py.Ok c => Some c | Py.Raise _ => None end
      else Some i
  | Py.Raise _ => None
  end.

(** [self.comm] of the process of world rank [peer]. *)
Definition pool_comm (size nproc_per_pool : Z) (remainder_mode : bool)
           (peer : Z) : MPI.Comm :=
  MPI.Split (Py.range size) (split_color size nproc_per_pool remainder_mode) peer.

(** [pool_class.set_pool].  The two [para.print] lines of the clamping
    branch only write to the console and leave no trace in the state. *)
Definition set_pool (self : t) (nproc_per_pool : Z) (remainder_mode : bool)
  : Py.result t :=
  let para := para self in
  if 0 <? nproc_per_pool then
    x <- topology (para_class.size para) (para_class.rank para)
                  nproc_per_pool remainder_mode ;;
    let '(npp, n, i) := x in
    if para_class.comm para then
      let comm := pool_comm (para_class.size para) nproc_per_pool remainder_mode in
      let self_comm := comm (para_class.rank para) in
      let size := MPI.Get_size self_comm in
      let rank := MPI.Get_rank self_comm (para_class.rank para) in
      let ranks :=
        MPI.gather_bcast (Py.range (para_class.size para))
                         (fun peer => MPI.Get_rank (comm peer) peer) in
      let roots := Py.zero_positions 0 ranks in
      let rootcomm := MPI.Create_group roots (para_class.rank para) in
      Py.Ok {| para := para; pool_list := pool_list self; up := true;
               msg := msg self;
               npp := Some npp; n := Some n; i := Some i;
               comm := Some (Some self_comm); size := Some size;
               rank := Some rank; roots := Some roots;
               rootcomm := Some (Some rootcomm);
               nspin := nspin self; nk := nk self; nk_use := nk_use self;
               sk_list := sk_list self; sk_offset := sk_offset self;
               nsk := nsk self |}
    else
      Py.Ok {| para := para; pool_list := pool_list self; up := true;
               msg := msg self;
               npp := Some npp; n := Some n; i := Some i;
               comm := Some None; size := Some 1;
               rank := Some 0; roots := Some [0];
               rootcomm := Some None;
               nspin := nspin self; nk := nk self; nk_use := nk_use self;
               sk_list := sk_list self; sk_offset := sk_offset self;
               nsk := nsk self |}
  else Py.Ok self.

(** The attributes both assignment methods overwrite, once the two lists
    are complete. *)
Definition with_sk (self : t) (nspin_ nk_ nk_use_ : Z)
           (lists : list (Z * Z) * list Z) : t :=
  {| para := para self; pool_list := pool_list self; up := up self;
     msg := msg self;
     npp := npp self; n := n self; i := i self;
     comm := comm self; size := size self; rank := rank self;
     roots := roots self; rootcomm := rootcomm self;
     nspin := Some nspin_; nk := Some nk_; nk_use := Some nk_use_;
     sk_list := Some (fst lists); sk_offset := Some (snd lists);
     nsk := Some (Z.of_nat (length (fst lists))) |}.

(** [self.sk_list.append((s, k)); self.sk_offset.append(offset)]. *)
Definition append_sk (s k offset : Z) (lists : list (Z * Z) * list Z)
  : list (Z * Z) * list Z :=
  (fst lists ++ [(s, k)], snd lists ++ [offset]).

Definition set_sk_list_v1 (self : t) (nspin_ nk_ nk_use_ : Z) : Py.result t :=
  lists <-
    Py.for_ (Py.range nspin_) (fun s =>
      Py.for_ (Py.range nk_use_) (fun k lists =>
        let offset := s * nk_ + k in
        self_n <- Py.getattr (n self) "n" ;;
        m <- Py.mod_ offset self_n ;;
        self_i <- Py.getattr (i self) "i" ;;
        if m =? self_i then Py.Ok (append_sk s k offset lists)
        else Py.Ok lists))
      ([], []) ;;
  Py.Ok (with_sk self nspin_ nk_ nk_use_ lists).

Definition set_sk_list (self : t) (nspin_ nk_ nk_use_ : Z) : Py.result t :=
  self_n <- Py.getattr (n self) "n" ;;
  nk_per_pool <- Py.int_truediv nk_use_ self_n ;;
  resk <- Py.mod_ nk_use_ self_n ;;
  self_i <- Py.getattr (i self) "i" ;;
  let start_k := nk_per_pool * self_i + Z.min resk self_i in
  lists <-
    Py.for_ (Py.range2 start_k
               (start_k + nk_per_pool + Py.int_of_bool (self_i <? resk)))
      (fun k =>
         Py.for_ (Py.range nspin_) (fun s lists =>
           let offset := s * nk_ + k in
           Py.Ok (append_sk s k offset lists)))
      ([], []) ;;
  Py.Ok (with_sk self nspin_ nk_ nk_use_ lists).

(** [pool_class.isroot]: [self.para.rank in self.roots]. *)
Definition isroot (self : t) : Py.result bool :=
  self_roots <- Py.getattr (roots self) "roots" ;;
  Py.Ok (existsb (Z.eqb (para_class.rank (para self))) self_roots).

(** [pool_class.sk_info], as run by one process; [peer_sk_list r] is the
    [sk_list] the process of world rank [r] passes to the gather.  The result
    holds the two attributes the method creates, [sk_list_all] and
    [sk_list_maxl]; the lines printed through [para.print] are left out. *)
Definition sk_info (peer_sk_list : Z -> list (Z * Z)) (self : t)
  : PyX.result (list (list (Z * Z)) * Z) :=
  let me := para_class.rank (para self) in
  self_rootcomm <-- PyX.lift (Py.getattr (rootcomm self) "rootcomm") ;;
  sk_list_all <--
    (match self_rootcomm with
     | Some c =>
         if MPI.is_valid c then
           own <-- PyX.lift (Py.getattr (sk_list self) "sk_list") ;;
           let value := fun r => if r =? me then own else peer_sk_list r in
           let gathered := MPI.gather c value me in
           PyX.Ok (MPI.bcast c (fun r => MPI.gather c value r) gathered)
         else
           own <-- PyX.lift (Py.getattr (sk_list self) "sk_list") ;;
           PyX.Ok (Some [own])
     | None =>
         own <-- PyX.lift (Py.getattr (sk_list self) "sk_list") ;;
         PyX.Ok (Some [own])
     end) ;;
  match sk_list_all with
  | None => PyX.Raise PyX.TypeError
  | Some all =>
      sk_list_maxl <-- PyX.max_of (map (fun skl => Z.of_nat (length skl)) all) ;;
      PyX.Ok (all, sk_list_maxl)
  end.

(** [self.pool_list = l]. *)
Definition with_pool_list (self : t) (l : list (list Z)) : t :=
  {| para := para self; pool_list := l; up := up self; msg := msg self;
     npp := npp self; n := n self; i := i self;
     comm := comm self; size := size self; rank := rank self;
     roots := roots self; rootcomm := rootcomm self;
     nspin := nspin self; nk := nk self; nk_use := nk_use self;
     sk_list := sk_list self; sk_offset := sk_offset self; nsk := nsk self |}.

(** The first two collectives of [info] on the process whose pool object is
    [self]: [mypool] is the gather of the world ranks inside the pool, and
    the value [self.pool_list] holds before the final broadcast is the
    gather of the [mypool]s inside [rootcomm] for a pool root and the
    untouched [self.pool_list] otherwise ([None.gather] fails when
    [rootcomm] is [None]).  A Python [None] is a Rocq [None]. *)
Definition info_mypool (self : t) : Py.result (option (list Z)) :=
  self_comm <- Py.getattr (comm self) "comm" ;;
  match self_comm with
  | Some c =>
      Py.Ok (MPI.gather c (fun r => r) (para_class.rank (para self)))
  | None => Py.Ok None
  end.

Definition info_gathered (peers : Z -> t) (self : t)
  : Py.result (option (list (option (list Z)))) :=
  mypool <- info_mypool self ;;
  self_rootcomm <- Py.getattr (rootcomm self) "rootcomm" ;;
  match self_rootcomm with
  | Some (MPI.Intracomm roots_) =>
      Py.Ok (MPI.gather (MPI.Intracomm roots_)
               (fun r =>
                  if r =? para_class.rank (para self) then mypool
                  else match info_mypool (peers r) with
                       | Py.Ok v => v
                       | Py.Raise _ => None
                       end)
               (para_class.rank (para self)))
  | Some MPI.COMM_NULL => Py.Ok (Some (map Some (pool_list self)))
  | None => Py.Raise (Py.AttributeError "gather")
  end.

(** One line of the table [info] prints: pool index, pool size, members. *)
Definition info_row : Type := (Z * Z * list Z)%type.

(** The first half of [info]: the block under [if not self.pool_list]. *)
Definition info_collect (peers : Z -> t) (self : t) : PyX.result t :=
  match pool_list self with
  | _ :: _ => PyX.Ok self
  | [] =>
      self_comm <-- (if para_class.comm (para self)
                     then PyX.lift (Py.getattr (comm self) "comm")
                     else PyX.Ok None) ;;
      match self_comm with
      | Some c =>
          if MPI.is_valid c then
            _ <-- PyX.lift (info_gathered peers self) ;;
            received <-- PyX.lift (info_gathered peers (peers 0)) ;;
            match received with
            | Some l =>
                entries <--
                  PyX.for_ l (fun entry acc =>
                                match entry with
                                | Some members => PyX.Ok (acc ++ [members])
                                | None => PyX.Raise PyX.TypeError
                                end) [] ;;
                PyX.Ok (with_pool_list self entries)
            | None => PyX.Raise PyX.TypeError
            end
          else PyX.Ok (with_pool_list self [[0]])
      | None => PyX.Ok (with_pool_list self [[0]])
      end
  end.

(** The second half of [info]: the loop that prints one row per pool. *)
Definition info_table (self : t) : PyX.result (list info_row) :=
  self_n <-- PyX.lift (Py.getattr (n self) "n") ;;
  PyX.for_ (Py.range self_n)
    (fun i_ rows =>
       members <-- PyX.getitem (pool_list self) i_ ;;
       PyX.Ok (if para_class.rank (para self) =? 0
               then rows ++ [(i_, Z.of_nat (length members), members)]
               else rows)) [].

(** [pool_class.info], as run by one process of a world in which [peers r]
    is the pool object of the process of world rank [r].  The result is the
    object with its [pool_list] and the rows of the table this process
    prints ([para.print] prints on world rank 0 only; the two header lines
    and the closing empty line are left out). *)
Definition info (peers : Z -> t) (self : t) : PyX.result (t * list info_row) :=
  self1 <-- info_collect peers self ;;
  rows <-- info_table self1 ;;
  PyX.Ok (self1, rows).

(** [self.msg = m]. *)
Definition with_msg (self : t) (m : string) : t :=
  {| para := para self; pool_list := pool_list self; up := up self; msg := m;
     npp := npp self; n := n self; i := i self;
     comm := comm self; size := size self; rank := rank self;
     roots := roots self; rootcomm := rootcomm self;
     nspin := nspin self; nk := nk self; nk_use := nk_use self;
     sk_list := sk_list self; sk_offset := sk_offset self; nsk := nsk self |}.

(** The line feed of ['\n']. *)
Definition newline : string := String (ascii_of_nat 10) EmptyString.

(** ['pool {0}:\n'.format(i) + m]. *)
Definition log_block (i_ : Z) (m : string) : string :=
  String.append "pool "
    (String.append (NilZero.string_of_int (Z.to_int i_))
       (String.append ":" (String.append newline m))).

(** [for i, m in enumerate(msgs): if len(m) > 0: print(...)], counting from
    [start]; the result lists the printed texts. *)
Fixpoint log_blocks (start : Z) (msgs : list string) : list string :=
  match msgs with
  | [] => []
  | m :: msgs' =>
      if (0 <? String.length m)%nat
      then log_block start m :: log_blocks (start + 1) msgs'
      else log_blocks (start + 1) msgs'
  end.

(** [pool_class.log], as run by one process; [peer_msg r] is the buffer the
    process of world rank [r] passes to the gather.  The result is the
    object with its new buffer and the texts this process prints, one per
    call of [print]. *)
Definition log (peer_msg : Z -> string) (self : t) (msg_ : string)
           (flush : bool) : PyX.result (t * list string) :=
  let me := para_class.rank (para self) in
  let buffer :=
    if (0 <? String.length msg_)%nat
    then String.append (msg self) (String.append msg_ newline)
    else msg self in
  if flush then
    self_rootcomm <-- PyX.lift (Py.getattr (rootcomm self) "rootcomm") ;;
    printed <--
      (match self_rootcomm with
       | Some c =>
           if MPI.is_valid c then
             let msgs := MPI.gather c (fun r => if r =? me then buffer
                                                else peer_msg r) me in
             if MPI.Get_rank c me =? 0 then
               match msgs with
               | Some l => PyX.Ok (log_blocks 0 l)
               | None => PyX.Raise PyX.TypeError
               end
             else PyX.Ok []
           else PyX.Ok [buffer]
       | None => PyX.Ok [buffer]
       end) ;;
    PyX.Ok (with_msg self EmptyString, printed)
  else PyX.Ok (with_msg self buffer, []).

(** A run of buffered [log] calls, one per message, without flush: the
    object after the last call and all the texts printed on the way. *)
Fixpoint log_each (peer_msg : Z -> string) (self : t) (msgs : list string)
  : PyX.result (t * list string) :=
  match msgs with
  | [] => PyX.Ok (self, [])
  | m :: msgs' =>
      out <-- log peer_msg self m false ;;
      rest <-- log_each peer_msg (fst out) msgs' ;;
      PyX.Ok (fst rest, snd out ++ snd rest)
  end.

End pool_class.

(** ** [rixs_f1]: the search for the brightest transition

    Section [brightest] holds the statements of [rixs_f1] between the
    comment [# find the brightest transition] and the threshold (lines
    151-155); [rixs_f1] below runs them after the statements of lines
    141-148, which read three names from the module namespace and raise
    [NameError] when one is missing.  The magnitudes are floating-point
    numbers; only their order is used, so they are kept abstract: a carrier
    [V] with Python's [>] as [gt] and the initial integer [0] as [zero].
    [mag w] stands for [abs(Mv1c1[iw]).max()] of the matrix built for
    [omega_in[w]], a value that depends on the frequency only. *)

Module rixs.
Section brightest.

Variable V : Type.
Variable zero : V.
Variable gt : V -> V -> bool.
Variable mag : Z -> V.

(** Python's [max(a, b)]: the first maximal argument. *)
Definition max (a b : V) : V := if gt b a then b else a.

(** [MPI.MAX] on two contributions. *)
Definition MPI_MAX (a b : V) : V := if gt a b then a else b.

(** [iw_local = range(rank, nener_in + 1, size)]. *)
Definition iw_local (rank size nener_in : Z) : list Z :=
  Py.range3 rank (nener_in + 1) size.

(** The loop over [range(len(iw_local))], started from [Mv1c1_max = 0]. *)
Definition local_max (indices : list Z) : V :=
  fold_left (fun m w => max m (mag w)) indices zero.

(** [comm.allreduce(_, op = MPI.MAX)]: the contributions are combined in
    rank order and every process receives the result. *)
Definition allreduce_MAX (contributions : list V) (own : V) : V :=
  match contributions with
  | [] => own
  | c :: cs => fold_left MPI_MAX cs c
  end.

(** Lines 151-155, the value of [Mv1c1_max] once they have run. *)
Definition Mv1c1_max (rank size nener_in : Z) : V :=
  let m := local_max (iw_local rank size nener_in) in
  if 1 <? size then
    allreduce_MAX
      (map (fun peer => local_max (iw_local peer size nener_in)) (Py.range size))
      m
  else m.

(** The same two steps for an arbitrary distribution of the frequencies,
    [parts] holding the indices of each process in rank order. *)
Definition partitioned_max (parts : list (list Z)) : V :=
  allreduce_MAX (map local_max parts) zero.

(** [x] is the greatest element of [l]. *)
Definition is_maximum (x : V) (l : list V) : Prop :=
  In x l /\ forall y, In y l -> gt y x = false.

(** What the proofs need of a binary maximum, Python's or MPI's: the result
    is one of the arguments and neither argument exceeds it. *)
Definition picks_greater (op : V -> V -> V) : Prop :=
  forall a b, (op a b = a \/ op a b = b) /\
              gt a (op a b) = false /\ gt b (op a b) = false.

End brightest.

(** The exception that stops [rixs_f1]. *)
Inductive exn : Type :=
| NameError (name : string).

Inductive result (A : Type) : Type :=
| Ok (a : A)
| Raise (e : exn).
Arguments Ok {A} a.
Arguments Raise {A} e.

Definition bind {A B : Type} (m : result A) (f : A -> result B) : result B :=
  match m with
  | Ok a => f a
  | Raise e => Raise e
  end.

(** Reading a name that the function never assigns: Python looks it up in
    the module namespace; [bound name] tells whether [rixs.py] or one of
    the modules it imports with [*] binds it. *)
Definition load_global (bound : string -> bool) (name : string) : result unit :=
  if bound name then Ok tt else Raise (NameError name).

Section rixs_f1.

Variable V : Type.
Variable zero : V.
Variable gt : V -> V -> bool.
Variable mag : Z -> V.
Variable bound : string -> bool.

(** [rixs_f1] from the construction of the map (line 138) to the end of the
    search for the brightest transition (line 155), on the process [rank]
    of [size]; the result is the value of [Mv1c1_max] after line 155.
    Line 141 reads [e_lo_out] and [e_hi_out], and line 148 reads [gamma_f];
    the function assigns none of them (it assigns [e_out_lo] and [e_out_hi]
    at lines 145/147 and has the parameter [Gamma_f]), so each is a lookup
    in the module namespace. *)
Definition rixs_f1 (rank size nener_in : Z) : result V :=
  bind (load_global bound "e_lo_out") (fun _ =>
  bind (load_global bound "e_hi_out") (fun _ =>
  bind (load_global bound "gamma_f") (fun _ =>
  Ok (Mv1c1_max V zero gt mag rank size nener_in)))).

End rixs_f1.
End rixs.

(** ** Vocabulary of the specification *)

(** Section 3: the work space, the tuples [(s, k)] with [s] in [[0, nspin)]
    and [k] in [[0, k_used)]. *)
Definition work_space (nspin nk_use : Z) : list (Z * Z) :=
  flat_map (fun s => map (fun k => (s, k)) (Py.range nk_use)) (Py.range nspin).

(** Section 3: the global offset of a work tuple. *)
Definition global_offset (nk : Z) (sk : Z * Z) : Z := fst sk * nk + snd sk.

(** Section 4.3: the two assignment policies. *)
Inductive sk_policy : Type := striped | block.

Definition assign (policy : sk_policy)
  : pool_class.t -> Z -> Z -> Z -> Py.result pool_class.t :=
  match policy with
  | striped => pool_class.set_sk_list_v1
  | block => pool_class.set_sk_list
  end.

(** The tuple sequence and the offsets a pool object ends up with. *)
Definition sk_list_of (r : Py.result pool_class.t) : list (Z * Z) :=
  match r with
  | Py.Ok self => match pool_class.sk_list self with Some l => l | None => [] end
  | Py.Raise _ => []
  end.

Definition sk_offset_of (r : Py.result pool_class.t) : list Z :=
  match r with
  | Py.Ok self => match pool_class.sk_offset self with Some l => l | None => [] end
  | Py.Raise _ => []
  end.

(** The method ran to completion and left both lists on the object. *)
Definition assigned (r : Py.result pool_class.t) : Prop :=
  exists self l o,
    r = Py.Ok self /\ pool_class.sk_list self = Some l /\
    pool_class.sk_offset self = Some o /\
    pool_class.nsk self = Some (Z.of_nat (length l)).

(** Section 4.1, following the words of the specification: the clamped
    minimum pool size, the pool count, and the pool id under each policy. *)
Definition spec_clamp (P M : Z) : Z := if P <? M then P else M.

Definition spec_pool_count (P M : Z) : Z := P / spec_clamp P M.

Definition spec_pool_id_remainder (N r : Z) : Z := r mod N.

Definition spec_pool_id_contiguous (P M r : Z) : Z :=
  let R := P mod M in
  if r <? R * (M + 1) then r / (M + 1) else (r - R * (M + 1)) / M + R.

(** Section 4.3, block policy, following the words of the specification:
    the block of pool [j] has [floor(k_used / N)] k-indices, one more for
    the first [k_used mod N] pools, and the blocks follow each other from
    k-index 0. *)
Definition spec_block_size (nk_use N j : Z) : Z :=
  nk_use / N + (if j <? nk_use mod N then 1 else 0).

Definition spec_block_start (nk_use N j : Z) : Z :=
  fold_left (fun acc j' => acc + spec_block_size nk_use N j') (Py.range j) 0.

(** k-major, spin-minor enumeration of the tuples over a list of k-indices. *)
Definition k_major (nspin : Z) (ks : list Z) : list (Z * Z) :=
  flat_map (fun k => map (fun s => (s, k)) (Py.range nspin)) ks.

(** A process of world rank [r] among [P], as [para_class] and
    [pool_class.__init__] leave it before [set_pool]. *)
Definition fresh_pool (P r : Z) : pool_class.t :=
  pool_class.__init__ (para_class.init_mpi P r).

(** A pool object that knows its pool count and pool id only. *)
Definition pool_of (N j : Z) : pool_class.t :=
  pool_class.mk para_class.init_serial [] true EmptyString
    None (Some N) (Some j) None None None None None
    None None None None None None.

(** The pool id [set_pool] gives the process of world rank [r], the ranks
    that end up in pool [j], and their number. *)
Definition pool_id_of (P M : Z) (remainder_mode : bool) (r : Z) : option Z :=
  match pool_class.set_pool (fresh_pool P r) M remainder_mode with
  | Py.Ok self => pool_class.i self
  | Py.Raise _ => None
  end.

Definition pool_members (P M : Z) (remainder_mode : bool) (j : Z) : list Z :=
  filter (fun r =>
            match pool_id_of P M remainder_mode r with
            | Some j' => j' =? j
            | None => false
            end) (Py.range P).

Definition pool_size (P M : Z) (remainder_mode : bool) (j : Z) : Z :=
  Z.of_nat (length (pool_members P M remainder_mode j)).

(** Section 4.3, striped policy: the pool that owns a tuple. *)
Definition spec_owner (nk N : Z) (sk : Z * Z) : Z := global_offset nk sk mod N.

Definition owned_by (nk N j : Z) (sk : Z * Z) : bool := spec_owner nk N sk =? j.

(** The closed form of the first k-index of the block of pool [j], as
    [set_sk_list] computes [start_k]. *)
Definition block_start (nk_use N j : Z) : Z :=
  nk_use / N * j + Z.min (nk_use mod N) j.

(** The tuple sequence of pool [j] when each pool object [pools j] runs the
    assignment method of the chosen policy. *)
Definition pool_lists (policy : sk_policy) (pools : Z -> pool_class.t)
           (nspin nk nk_use : Z) (j : Z) : list (Z * Z) :=
  sk_list_of (assign policy (pools j) nspin nk nk_use).

(** The first rank of pool [j] when the pools are laid out as consecutive
    blocks of [M] ranks, the first [R] of them one rank longer. *)
Definition pool_start (M R j : Z) : Z := j * M + Z.min j R.

(** The filter [comm.Split] applies for the process of rank [r]. *)
Definition same_pool (P M : Z) (remainder_mode : bool) (r r' : Z) : bool :=
  match pool_class.split_color P M remainder_mode r',
        pool_class.split_color P M remainder_mode r with
  | Some c, Some c' => c =? c'
  | _, _ => false
  end.

(** The offsets a pool object ends up with under the chosen policy. *)
Definition pool_offsets (policy : sk_policy) (pools : Z -> pool_class.t)
           (nspin nk nk_use : Z) (j : Z) : list Z :=
  sk_offset_of (assign policy (pools j) nspin nk nk_use).

(** [pool_class(para_class())]: the objects of a run without MPI. *)
Definition serial_pool : pool_class.t := pool_class.__init__ para_class.init_serial.

(** The topologies in which no pool id reaches the pool count: the remainder
    policy, and the contiguous policy when the remainder [P mod M] does not
    exceed the pool count. *)
Definition sound_topology (P M : Z) (remainder_mode : bool) : Prop :=
  remainder_mode = true \/ (M <= P /\ P mod M <= P / M).

(** A process of the world that has run [set_pool] and then the assignment
    method of the chosen policy. *)
Definition process_state (P M : Z) (remainder_mode : bool) (policy : sk_policy)
           (nspin nk nk_use : Z) (r : Z) : Py.result pool_class.t :=
  self <- pool_class.set_pool (fresh_pool P r) M remainder_mode ;;
  assign policy self nspin nk nk_use.

(** The pool objects of a world in which every process has run [set_pool]
    with the same arguments. *)
Definition world_after_set_pool (P M : Z) (remainder_mode : bool) (r : Z)
  : pool_class.t :=
  match pool_class.set_pool (fresh_pool P r) M remainder_mode with
  | Py.Ok self => self
  | Py.Raise _ => fresh_pool P r
  end.

(** The ranks that sit at position 0 of their pool. *)
Definition world_roots (P M : Z) (remainder_mode : bool) : list Z :=
  filter (fun x =>
            Z.of_nat (length (filter (same_pool P M remainder_mode x)
                                     (Py.range x))) =? 0)
         (Py.range P).

(** The text a run of buffered [log] calls adds to the buffer: every
    non-empty message followed by a line feed, in call order. *)
Definition buffered (msgs : list string) : string :=
  fold_right
    (fun m acc =>
       if (0 <? String.length m)%nat
       then String.append m (String.append pool_class.newline acc)
       else acc)
    EmptyString msgs.

(** * Properties *)

(** ** Ranges and loops *)

Lemma int_truediv_floor (a b : Z) :
  0 <= a -> 0 < b -> Py.int_truediv a b = Py.Ok (a / b).
Proof.
  intros Ha Hb. unfold Py.int_truediv.
  destruct (Z.eqb_spec b 0) as [E | _]; [lia |].
  now rewrite Z.quot_div_nonneg by lia.
Qed.

Lemma mod_ok (a b : Z) : b <> 0 -> Py.mod_ a b = Py.Ok (a mod b).
Proof.
  intros Hb. unfold Py.mod_.
  now destruct (Z.eqb_spec b 0).
Qed.

Lemma in_range2 (a b x : Z) : In x (Py.range2 a b) <-> a <= x < b.
Proof.
  unfold Py.range2. rewrite in_map_iff. split.
  - intros (j & <- & Hj). apply in_seq in Hj. lia.
  - intros Hx. exists (Z.to_nat (x - a)). split; [lia |].
    apply in_seq. lia.
Qed.

Lemma in_range (n x : Z) : In x (Py.range n) <-> 0 <= x < n.
Proof. apply in_range2. Qed.

Lemma range2_empty (a b : Z) : b <= a -> Py.range2 a b = [].
Proof.
  intros H. unfold Py.range2.
  replace (Z.to_nat (b - a)) with 0%nat by lia. reflexivity.
Qed.

Lemma map_seq_from {A : Type} (g : nat -> A) (len start : nat) :
  map g (seq start len) = map (fun j => g (start + j)%nat) (seq 0 len).
Proof.
  revert g start. induction len as [| len IH]; intros g start; [reflexivity |].
  simpl. rewrite Nat.add_0_r. f_equal.
  rewrite (IH g (S start)), (IH (fun j => g (start + j)%nat) 1%nat).
  apply map_ext. intros j. f_equal. lia.
Qed.

Lemma range2_app (a b c : Z) :
  a <= b -> b <= c -> Py.range2 a c = Py.range2 a b ++ Py.range2 b c.
Proof.
  intros Hab Hbc. unfold Py.range2.
  replace (Z.to_nat (c - a)) with (Z.to_nat (b - a) + Z.to_nat (c - b))%nat by lia.
  rewrite seq_app, map_app. f_equal.
  rewrite map_seq_from. apply map_ext. intros j. lia.
Qed.

Lemma range2_cons (a b : Z) : a < b -> Py.range2 a b = a :: Py.range2 (a + 1) b.
Proof.
  intros H. rewrite (range2_app a (a + 1) b) by lia.
  unfold Py.range2 at 1.
  replace (Z.to_nat (a + 1 - a)) with 1%nat by lia.
  simpl. now rewrite Z.add_0_r.
Qed.

Lemma range2_snoc (a b : Z) : a <= b -> Py.range2 a (b + 1) = Py.range2 a b ++ [b].
Proof.
  intros H. rewrite (range2_app a b (b + 1)) by lia. f_equal.
  rewrite range2_cons by lia. now rewrite range2_empty by lia.
Qed.

Lemma length_range2 (a b : Z) : length (Py.range2 a b) = Z.to_nat (b - a).
Proof. unfold Py.range2. now rewrite length_map, length_seq. Qed.

Lemma NoDup_range2 (a b : Z) : NoDup (Py.range2 a b).
Proof.
  unfold Py.range2. apply Finite.Injective_map_NoDup.
  - intros x y Hxy. lia.
  - apply seq_NoDup.
Qed.

Lemma filter_none {A : Type} (f : A -> bool) (l : list A) :
  (forall x, In x l -> f x = false) -> filter f l = [].
Proof.
  induction l as [| x l IH]; intros H; simpl; [reflexivity |].
  rewrite (H x) by now left. apply IH. intros y Hy. apply H. now right.
Qed.

Lemma filter_all {A : Type} (f : A -> bool) (l : list A) :
  (forall x, In x l -> f x = true) -> filter f l = l.
Proof.
  induction l as [| x l IH]; intros H; simpl; [reflexivity |].
  rewrite (H x) by now left. f_equal. apply IH. intros y Hy. apply H. now right.
Qed.

(** Selecting an interval out of a range yields the interval. *)
Lemma filter_range_interval (f : Z -> bool) (P a b : Z) :
  0 <= a -> a <= b -> b <= P ->
  (forall r, 0 <= r < P -> (f r = true <-> a <= r < b)) ->
  filter f (Py.range P) = Py.range2 a b.
Proof.
  intros Ha Hab HbP Hf. unfold Py.range.
  rewrite (range2_app 0 a P) by lia.
  rewrite (range2_app a b P) by lia.
  rewrite !filter_app.
  rewrite (filter_none f (Py.range2 0 a)), (filter_all f (Py.range2 a b)),
    (filter_none f (Py.range2 b P)).
  - now rewrite app_nil_r.
  - intros x Hx. apply in_range2 in Hx.
    destruct (f x) eqn:E; [| reflexivity]. apply Hf in E; lia.
  - intros x Hx. apply in_range2 in Hx. apply Hf; lia.
  - intros x Hx. apply in_range2 in Hx.
    destruct (f x) eqn:E; [| reflexivity]. apply Hf in E; lia.
Qed.

(** A loop whose body cannot fail is a left fold. *)
Lemma for_pure {A S : Type} (l : list A) (body : A -> S -> Py.result S)
      (step : A -> S -> S) (st : S) :
  (forall x st', In x l -> body x st' = Py.Ok (step x st')) ->
  Py.for_ l body st = Py.Ok (fold_left (fun acc x => step x acc) l st).
Proof.
  revert st. induction l as [| x l IH]; intros st H; simpl; [reflexivity |].
  rewrite H by now left. simpl. apply IH. intros y st' Hy. apply H. now right.
Qed.

(** ** The pool topology computed by [set_pool] *)

Lemma div_eq_iff (a b q : Z) : 0 < b -> (a / b = q <-> b * q <= a < b * (q + 1)).
Proof.
  intros Hb. split.
  - intros <-. pose proof (Z_div_mod_eq_full a b) as E.
    pose proof (Z.mod_pos_bound a b Hb) as B. lia.
  - intros H. symmetry. apply (Z.div_unique a b q (a - b * q)); lia.
Qed.

Lemma spec_clamp_bounds (P M : Z) :
  1 <= P -> 1 <= M -> 1 <= spec_clamp P M <= P /\ spec_clamp P M <= M.
Proof. intros HP HM. unfold spec_clamp. destruct (Z.ltb_spec P M); lia. Qed.

Lemma spec_pool_count_pos (P M : Z) : 1 <= P -> 1 <= M -> 1 <= spec_pool_count P M.
Proof.
  intros HP HM. unfold spec_pool_count.
  pose proof (spec_clamp_bounds P M HP HM) as B.
  apply Z.div_le_lower_bound; lia.
Qed.

(** The arithmetic of [set_pool], for a well-formed world. *)
Lemma topology_ok (P r M : Z) (remainder_mode : bool) :
  1 <= M -> 0 <= r -> 1 <= P ->
  pool_class.topology P r M remainder_mode =
  Py.Ok (spec_clamp P M, spec_pool_count P M,
         if remainder_mode then spec_pool_id_remainder (spec_pool_count P M) r
         else spec_pool_id_contiguous P (spec_clamp P M) r).
Proof.
  intros HM Hr HP.
  pose proof (spec_clamp_bounds P M HP HM) as Hm.
  pose proof (spec_pool_count_pos P M HP HM) as HN.
  unfold pool_class.topology.
  change (if P <? M then P else M) with (spec_clamp P M).
  set (m := spec_clamp P M) in *.
  rewrite int_truediv_floor by lia.
  change (P / m) with (spec_pool_count P M).
  set (N := spec_pool_count P M) in *. simpl.
  destruct remainder_mode.
  - rewrite mod_ok by lia. reflexivity.
  - rewrite mod_ok by lia. simpl.
    unfold spec_pool_id_contiguous.
    pose proof (Z.mod_pos_bound P m ltac:(lia)) as HR.
    destruct (Z.ltb_spec r (P mod m * (m + 1))).
    + rewrite int_truediv_floor by lia. reflexivity.
    + rewrite int_truediv_floor by lia. reflexivity.
Qed.

(** Clamping the minimum pool size does not change the contiguous formula. *)
Lemma spec_pool_id_contiguous_clamp (P M r : Z) :
  1 <= M -> 0 <= r < P ->
  spec_pool_id_contiguous P (spec_clamp P M) r = spec_pool_id_contiguous P M r.
Proof.
  intros HM Hr. unfold spec_clamp.
  destruct (Z.ltb_spec P M) as [Hlt | Hge]; [| reflexivity].
  unfold spec_pool_id_contiguous.
  rewrite Z_mod_same_full, (Z.mod_small P M) by lia.
  destruct (Z.ltb_spec r (0 * (P + 1))); [lia |].
  destruct (Z.ltb_spec r (P * (M + 1))); [| nia].
  rewrite Z.mul_0_l, Z.sub_0_r, Z.add_0_r.
  rewrite !Z.div_small by lia. reflexivity.
Qed.

(** What [set_pool] leaves on the object once the guard has passed. *)
Lemma set_pool_guarded (self : pool_class.t) (M : Z) (remainder_mode : bool)
      (npp n i : Z) :
  0 < M ->
  pool_class.topology (para_class.size (pool_class.para self))
    (para_class.rank (pool_class.para self)) M remainder_mode = Py.Ok (npp, n, i) ->
  exists self',
    pool_class.set_pool self M remainder_mode = Py.Ok self' /\
    pool_class.npp self' = Some npp /\ pool_class.n self' = Some n /\
    pool_class.i self' = Some i /\ pool_class.up self' = true /\
    pool_class.para self' = pool_class.para self.
Proof.
  intros HM Ht. unfold pool_class.set_pool.
  destruct (Z.ltb_spec 0 M); [| lia].
  rewrite Ht. simpl.
  destruct (para_class.comm (pool_class.para self));
    eexists; (split; [reflexivity |]); simpl; repeat split.
Qed.

Lemma pool_id_of_ok (P M r : Z) (remainder_mode : bool) :
  1 <= M -> 0 <= r -> 1 <= P ->
  pool_id_of P M remainder_mode r =
  Some (if remainder_mode then spec_pool_id_remainder (spec_pool_count P M) r
        else spec_pool_id_contiguous P (spec_clamp P M) r).
Proof.
  intros HM Hr HP. unfold pool_id_of.
  destruct (set_pool_guarded (fresh_pool P r) M remainder_mode _ _ _
              ltac:(lia) (topology_ok P r M remainder_mode HM Hr HP))
    as (self' & -> & _ & _ & Hi & _).
  exact Hi.
Qed.

(** C4: for every rank [r] of a world of [P] processes, the pool id left by
    [set_pool] is [r mod N] under the remainder policy and, under the
    contiguous policy, [floor(r / (M+1))] when [r < R*(M+1)] and
    [floor((r - R*(M+1)) / M) + R] otherwise, with [R = P mod M]; the
    contiguous formula gives the same id whether [M] is read as the requested
    or as the clamped minimum pool size. *)
Theorem set_pool_pool_id_formulas (self : pool_class.t) (P M r : Z)
        (c remainder_mode : bool) :
  pool_class.para self = para_class.mk c P r ->
  1 <= M -> 0 <= r < P ->
  exists self',
    pool_class.set_pool self M remainder_mode = Py.Ok self' /\
    pool_class.n self' = Some (spec_pool_count P M) /\
    pool_class.i self' =
      Some (if remainder_mode
            then spec_pool_id_remainder (spec_pool_count P M) r
            else spec_pool_id_contiguous P M r) /\
    spec_pool_id_contiguous P M r =
      spec_pool_id_contiguous P (spec_clamp P M) r.
Proof.
  intros Hpara HM Hr.
  assert (Ht := topology_ok P r M remainder_mode HM ltac:(lia) ltac:(lia)).
  destruct (set_pool_guarded self M remainder_mode
              (spec_clamp P M) (spec_pool_count P M)
              (if remainder_mode
               then spec_pool_id_remainder (spec_pool_count P M) r
               else spec_pool_id_contiguous P (spec_clamp P M) r))
    as (self' & Hrun & _ & Hn & Hi & _).
  - lia.
  - rewrite Hpara. exact Ht.
  - exists self'. rewrite <- (spec_pool_id_contiguous_clamp P M r HM Hr) at 1.
    repeat split; try assumption.
    symmetry. apply spec_pool_id_contiguous_clamp; assumption.
Qed.

Lemma set_pool_pool_id_formulas_witness :
  exists self',
    pool_class.set_pool (fresh_pool 10 7) 3 false = Py.Ok self' /\
    pool_class.n self' = Some (spec_pool_count 10 3) /\
    pool_class.i self' = Some (spec_pool_id_contiguous 10 3 7) /\
    spec_pool_id_contiguous 10 3 7 =
      spec_pool_id_contiguous 10 (spec_clamp 10 3) 7.
Proof.
  apply (set_pool_pool_id_formulas (fresh_pool 10 7) 10 3 7 true false);
    [reflexivity | lia | lia].
Defined.

(** The contiguous pool id never decreases along the ranks. *)
Lemma spec_pool_id_contiguous_mono (P M r1 r2 : Z) :
  1 <= M -> 1 <= P -> 0 <= r1 -> r1 <= r2 ->
  spec_pool_id_contiguous P M r1 <= spec_pool_id_contiguous P M r2.
Proof.
  intros HM HP H1 H12. unfold spec_pool_id_contiguous.
  pose proof (Z.mod_pos_bound P M ltac:(lia)) as HR.
  set (R := P mod M) in *.
  destruct (Z.ltb_spec r1 (R * (M + 1))), (Z.ltb_spec r2 (R * (M + 1))).
  - apply Z.div_le_mono; lia.
  - assert (r1 / (M + 1) < R) by (apply Z.div_lt_upper_bound; lia).
    assert (0 <= (r2 - R * (M + 1)) / M) by (apply Z.div_pos; lia).
    lia.
  - lia.
  - apply Z.add_le_mono_r. apply Z.div_le_mono; lia.
Qed.

(** Under the contiguous policy, when the remainder [R = P mod M] does not
    exceed the pool count, the ranks with pool id [j] form the block that
    starts at [j*M + min(j, R)]. *)
Lemma contiguous_members (P M j : Z) :
  1 <= M -> M <= P -> P mod M <= P / M -> 0 <= j < P / M ->
  pool_members P M false j =
  Py.range2 (j * M + Z.min j (P mod M)) ((j + 1) * M + Z.min (j + 1) (P mod M)).
Proof.
  intros HM HMP HRN Hj. unfold pool_members.
  pose proof (Z.mod_pos_bound P M ltac:(lia)) as HR.
  pose proof (Z_div_mod_eq_full P M) as HP.
  set (R := P mod M) in *. set (N := P / M) in *.
  assert (Hclamp : spec_clamp P M = M)
    by (unfold spec_clamp; destruct (Z.ltb_spec P M); lia).
  apply filter_range_interval; try nia.
  intros r Hr.
  rewrite pool_id_of_ok by lia. rewrite Hclamp.
  unfold spec_pool_id_contiguous. fold R.
  rewrite Z.eqb_eq.
  destruct (Z.ltb_spec r (R * (M + 1))) as [Hlt | Hge].
  - rewrite div_eq_iff by lia. nia.
  - assert (E : (r - R * (M + 1)) / M + R = j <-> (r - R * (M + 1)) / M = j - R) by lia.
    rewrite E, div_eq_iff by lia. nia.
Qed.

(** The size [comm.Split] reports to a process is the number of ranks that
    share its pool id. *)
Lemma set_pool_size_counts_members (P M r : Z) (remainder_mode : bool) :
  1 <= M -> 0 <= r < P ->
  exists self' j,
    pool_class.set_pool (fresh_pool P r) M remainder_mode = Py.Ok self' /\
    pool_class.i self' = Some j /\
    pool_class.size self' = Some (pool_size P M remainder_mode j) /\
    pool_class.comm self' =
      Some (Some (MPI.Intracomm (pool_members P M remainder_mode j))).
Proof.
  intros HM Hr.
  assert (Hcolor : forall r', 0 <= r' < P ->
            pool_class.split_color P M remainder_mode r' =
            pool_id_of P M remainder_mode r').
  { intros r' Hr'. unfold pool_class.split_color.
    rewrite topology_ok, pool_id_of_ok by lia.
    destruct remainder_mode; [| reflexivity].
    rewrite mod_ok; [reflexivity |].
    pose proof (spec_pool_count_pos P M ltac:(lia) HM). lia. }
  assert (Hmembers : forall j,
            pool_id_of P M remainder_mode r = Some j ->
            MPI.members_of (pool_class.pool_comm P M remainder_mode r) =
            pool_members P M remainder_mode j).
  { intros j Hj. unfold pool_class.pool_comm, MPI.Split, pool_members. simpl.
    apply filter_ext_in. intros r' Hr'. apply in_range in Hr'.
    rewrite !Hcolor, Hj by lia. reflexivity. }
  pose proof (pool_id_of_ok P M r remainder_mode HM ltac:(lia) ltac:(lia)) as Hid.
  unfold pool_class.set_pool, fresh_pool. simpl.
  destruct (Z.ltb_spec 0 M); [| lia].
  rewrite topology_ok by lia. simpl.
  do 2 eexists. split; [reflexivity |]. simpl.
  split; [reflexivity |]. split.
  - unfold MPI.Get_size, pool_size. now rewrite (Hmembers _ Hid).
  - do 2 f_equal. specialize (Hmembers _ Hid).
    unfold pool_class.pool_comm, MPI.Split in *. simpl in Hmembers.
    now rewrite Hmembers.
Qed.

(** Where the pool ids stay below the pool count: always under the
    remainder policy, and under the contiguous policy as long as the
    remainder [P mod M] does not exceed the pool count. *)
Lemma remainder_pool_id_in_range (P M r : Z) :
  1 <= M -> 1 <= P -> 0 <= r ->
  exists j, pool_id_of P M true r = Some j /\ 0 <= j < spec_pool_count P M.
Proof.
  intros HM HP Hr. rewrite pool_id_of_ok by lia.
  eexists. split; [reflexivity |].
  unfold spec_pool_id_remainder. apply Z.mod_pos_bound.
  pose proof (spec_pool_count_pos P M HP HM). lia.
Qed.

Lemma contiguous_pool_id_in_range (P M r : Z) :
  1 <= M -> M <= P -> P mod M <= P / M -> 0 <= r < P ->
  exists j, pool_id_of P M false r = Some j /\ 0 <= j < P / M.
Proof.
  intros HM HMP HRN Hr. rewrite pool_id_of_ok by lia.
  eexists. split; [reflexivity |].
  assert (Hclamp : spec_clamp P M = M)
    by (unfold spec_clamp; destruct (Z.ltb_spec P M); lia).
  rewrite Hclamp. unfold spec_pool_id_contiguous.
  pose proof (Z.mod_pos_bound P M ltac:(lia)) as HR.
  pose proof (Z_div_mod_eq_full P M) as HP.
  set (R := P mod M) in *. set (N := P / M) in *.
  destruct (Z.ltb_spec r (R * (M + 1))) as [Hlt | Hge].
  - split; [apply Z.div_pos; lia |].
    assert (r / (M + 1) < R) by (apply Z.div_lt_upper_bound; lia). lia.
  - assert (0 <= (r - R * (M + 1)) / M) by (apply Z.div_pos; lia).
    assert ((r - R * (M + 1)) / M < N - R)
      by (apply Z.div_lt_upper_bound; nia).
    lia.
Qed.

(** Otherwise the last rank receives a pool id that is not below the pool
    count. *)
Lemma contiguous_last_rank_overflow (P M : Z) :
  1 <= M -> M <= P -> P / M < P mod M ->
  exists j, pool_id_of P M false (P - 1) = Some j /\ P / M <= j.
Proof.
  intros HM HMP HNR. rewrite pool_id_of_ok by lia.
  eexists. split; [reflexivity |].
  assert (Hclamp : spec_clamp P M = M)
    by (unfold spec_clamp; destruct (Z.ltb_spec P M); lia).
  rewrite Hclamp. unfold spec_pool_id_contiguous.
  pose proof (Z.mod_pos_bound P M ltac:(lia)) as HR.
  pose proof (Z_div_mod_eq_full P M) as HP.
  set (R := P mod M) in *. set (N := P / M) in *.
  destruct (Z.ltb_spec (P - 1) (R * (M + 1))) as [Hlt | Hge]; [| nia].
  apply Z.div_le_lower_bound; nia.
Qed.

(** C3 (amended): under the contiguous policy, for [1 <= M <= P], pool ids
    never decrease as the rank increases; and whenever [R = P mod M] is at
    most the pool count [N = floor(P / M)], the first [R] pools have [M+1]
    members and the remaining [N - R] pools have [M]. *)
Theorem contiguous_pool_sizes (P M : Z) :
  1 <= M -> M <= P ->
  (forall r1 r2, 0 <= r1 -> r1 <= r2 -> r2 < P ->
     exists j1 j2,
       pool_id_of P M false r1 = Some j1 /\
       pool_id_of P M false r2 = Some j2 /\ j1 <= j2) /\
  (P mod M <= P / M ->
     (forall j, 0 <= j < P mod M -> pool_size P M false j = M + 1) /\
     (forall j, P mod M <= j < P / M -> pool_size P M false j = M)).
Proof.
  intros HM HMP. split.
  - intros r1 r2 H1 H12 H2.
    rewrite !pool_id_of_ok by lia.
    do 2 eexists. repeat split.
    apply spec_pool_id_contiguous_mono; try lia.
    pose proof (spec_clamp_bounds P M ltac:(lia) HM). lia.
  - intros HRN.
    pose proof (Z.mod_pos_bound P M ltac:(lia)) as HR.
    split; intros j Hj; unfold pool_size;
      rewrite contiguous_members, length_range2 by lia; lia.
Qed.

Lemma contiguous_pool_sizes_witness :
  (forall r1 r2, 0 <= r1 -> r1 <= r2 -> r2 < 10 ->
     exists j1 j2,
       pool_id_of 10 3 false r1 = Some j1 /\
       pool_id_of 10 3 false r2 = Some j2 /\ j1 <= j2) /\
  (10 mod 3 <= 10 / 3 ->
     (forall j, 0 <= j < 10 mod 3 -> pool_size 10 3 false j = 3 + 1) /\
     (forall j, 10 mod 3 <= j < 10 / 3 -> pool_size 10 3 false j = 3)).
Proof.
  apply (contiguous_pool_sizes 10 3); lia.
Defined.

(** C3 as stated fails: with 5 processes and a minimum pool size of 3 the
    remainder is 2, yet the second pool has a single member instead of 4. *)
Lemma contiguous_pool_sizes_counterexample :
  ~ (forall j, 0 <= j < 5 mod 3 -> pool_size 5 3 false j = 3 + 1).
Proof.
  intros H. specialize (H 1). vm_compute in H.
  assert (E : 1 = 4) by (apply H; split; [discriminate | reflexivity]).
  discriminate E.
Qed.

(** C2 (the code departs from it): 5 processes, minimum pool size 3,
    contiguous policy.  [set_pool] counts one pool, yet the process of rank
    4 receives pool id 1, outside [[0, 1)], and forms a pool of one member,
    below the minimum of 3. *)
Theorem set_pool_contiguous_id_out_of_range :
  exists self',
    pool_class.set_pool (fresh_pool 5 4) 3 false = Py.Ok self' /\
    pool_class.npp self' = Some 3 /\
    pool_class.n self' = Some 1 /\
    pool_class.i self' = Some 1 /\
    pool_class.size self' = Some 1 /\
    pool_class.comm self' = Some (Some (MPI.Intracomm [4])).
Proof. eexists. repeat split. Qed.

(** C7 (the code departs from it): in the same world, [roots] lists two
    pool roots although the pool count [n] is 1. *)
Theorem set_pool_contiguous_roots_exceed_count :
  exists self',
    pool_class.set_pool (fresh_pool 5 0) 3 false = Py.Ok self' /\
    pool_class.n self' = Some 1 /\
    pool_class.roots self' = Some [0; 4] /\
    pool_class.rootcomm self' = Some (Some (MPI.Intracomm [0; 4])).
Proof. eexists. repeat split. Qed.

(** ** The guard of [set_pool] *)

Lemma set_pool_unguarded (self : pool_class.t) (M : Z) (remainder_mode : bool) :
  M <= 0 -> pool_class.set_pool self M remainder_mode = Py.Ok self.
Proof.
  intros HM. unfold pool_class.set_pool.
  destruct (Z.ltb_spec 0 M); [lia | reflexivity].
Qed.

(** C8 (amended): called with a non-positive minimum pool size, [set_pool]
    raises no error; it returns normally and constructs no communicator
    ([comm] and [rootcomm] stay as they were, absent on a new object). *)
Theorem set_pool_nonpositive_no_error (self : pool_class.t) (M : Z)
        (remainder_mode : bool) :
  M <= 0 ->
  (forall e, pool_class.set_pool self M remainder_mode <> Py.Raise e) /\
  exists self',
    pool_class.set_pool self M remainder_mode = Py.Ok self' /\
    pool_class.comm self' = pool_class.comm self /\
    pool_class.rootcomm self' = pool_class.rootcomm self.
Proof.
  intros HM. rewrite set_pool_unguarded by assumption. split.
  - intros e. discriminate.
  - exists self. repeat split.
Qed.

Lemma set_pool_nonpositive_no_error_witness :
  (forall e, pool_class.set_pool (fresh_pool 4 0) 0 false <> Py.Raise e) /\
  exists self',
    pool_class.set_pool (fresh_pool 4 0) 0 false = Py.Ok self' /\
    pool_class.comm self' = pool_class.comm (fresh_pool 4 0) /\
    pool_class.rootcomm self' = pool_class.rootcomm (fresh_pool 4 0).
Proof.
  apply (set_pool_nonpositive_no_error (fresh_pool 4 0) 0 false). lia.
Defined.

(** C8 as stated fails: with a minimum pool size of 0 no error is raised. *)
Lemma set_pool_nonpositive_counterexample :
  ~ (exists e, pool_class.set_pool (fresh_pool 4 0) 0 false = Py.Raise e).
Proof. intros [e H]. discriminate H. Qed.

(** C10: called with [nproc_per_pool <= 0], [set_pool] returns without
    raising and leaves the pool object as it was; on a newly created object
    none of [npp], [n], [i], [comm], [rank], [size], [roots], [rootcomm]
    exists afterwards and [up] is still [False]. *)
Theorem set_pool_nonpositive_frame (self : pool_class.t) (p : para_class.t)
        (M : Z) (remainder_mode : bool) :
  M <= 0 ->
  pool_class.set_pool self M remainder_mode = Py.Ok self /\
  exists self',
    pool_class.set_pool (pool_class.__init__ p) M remainder_mode = Py.Ok self' /\
    pool_class.npp self' = None /\ pool_class.n self' = None /\
    pool_class.i self' = None /\ pool_class.comm self' = None /\
    pool_class.rank self' = None /\ pool_class.size self' = None /\
    pool_class.roots self' = None /\ pool_class.rootcomm self' = None /\
    pool_class.up self' = false.
Proof.
  intros HM. split.
  - apply set_pool_unguarded; assumption.
  - exists (pool_class.__init__ p). split.
    + apply set_pool_unguarded; assumption.
    + repeat split.
Qed.

Lemma set_pool_nonpositive_frame_witness :
  pool_class.set_pool (pool_of 3 1) (-2) true = Py.Ok (pool_of 3 1) /\
  exists self',
    pool_class.set_pool (pool_class.__init__ (para_class.init_mpi 4 2)) (-2) true
      = Py.Ok self' /\
    pool_class.npp self' = None /\ pool_class.n self' = None /\
    pool_class.i self' = None /\ pool_class.comm self' = None /\
    pool_class.rank self' = None /\ pool_class.size self' = None /\
    pool_class.roots self' = None /\ pool_class.rootcomm self' = None /\
    pool_class.up self' = false.
Proof.
  apply (set_pool_nonpositive_frame (pool_of 3 1) (para_class.init_mpi 4 2) (-2) true).
  lia.
Defined.

(** ** The two assignment loops *)

Lemma fold_left_over_map {A B S : Type} (g : A -> B) (step : S -> B -> S)
      (l : list A) (acc : S) :
  fold_left step (map g l) acc = fold_left (fun a x => step a (g x)) l acc.
Proof.
  revert acc. induction l as [| x l IH]; intros acc; simpl; [reflexivity |].
  apply IH.
Qed.

(** Two nested loops visit the pairs in the order of the flattened product. *)
Lemma fold_nested {A B C S : Type} (pair_of : A -> B -> C) (step : C -> S -> S)
      (xs : list A) (ys : list B) (acc : S) :
  fold_left (fun a x => fold_left (fun a' y => step (pair_of x y) a') ys a) xs acc =
  fold_left (fun a c => step c a) (flat_map (fun x => map (pair_of x) ys) xs) acc.
Proof.
  revert acc. induction xs as [| x xs IH]; intros acc; simpl; [reflexivity |].
  rewrite fold_left_app, fold_left_over_map. apply IH.
Qed.

(** Appending the selected tuples and their offsets, one at a time. *)
Lemma collect_selected (nk : Z) (sel : Z * Z -> bool) (ts : list (Z * Z))
      (acc : list (Z * Z) * list Z) :
  fold_left
    (fun a sk =>
       if sel sk
       then pool_class.append_sk (fst sk) (snd sk) (fst sk * nk + snd sk) a
       else a) ts acc =
  (fst acc ++ filter sel ts, snd acc ++ map (global_offset nk) (filter sel ts)).
Proof.
  revert acc. induction ts as [| sk ts IH]; intros acc; simpl.
  - rewrite !app_nil_r. now destruct acc.
  - rewrite IH. destruct (sel sk); [| reflexivity].
    unfold pool_class.append_sk. simpl.
    rewrite <- !app_assoc. destruct sk as [s k]. reflexivity.
Qed.

Lemma set_sk_list_v1_ok (self : pool_class.t) (N j nspin nk nk_use : Z) :
  pool_class.n self = Some N -> pool_class.i self = Some j -> N <> 0 ->
  pool_class.set_sk_list_v1 self nspin nk nk_use =
  Py.Ok (pool_class.with_sk self nspin nk nk_use
           (filter (owned_by nk N j) (work_space nspin nk_use),
            map (global_offset nk)
                (filter (owned_by nk N j) (work_space nspin nk_use)))).
Proof.
  intros Hn Hi HN. unfold pool_class.set_sk_list_v1.
  rewrite Hn, Hi.
  rewrite (for_pure _ _
             (fun s st =>
                fold_left
                  (fun a k =>
                     if owned_by nk N j (s, k)
                     then pool_class.append_sk s k (s * nk + k) a
                     else a) (Py.range nk_use) st)).
  - simpl. do 2 f_equal.
    rewrite (fold_nested (fun s k => (s, k))
               (fun sk a =>
                  if owned_by nk N j sk
                  then pool_class.append_sk (fst sk) (snd sk)
                         (fst sk * nk + snd sk) a
                  else a)).
    apply (collect_selected nk (owned_by nk N j)).
  - intros s st _.
    apply (for_pure _ _
             (fun k a =>
                if owned_by nk N j (s, k)
                then pool_class.append_sk s k (s * nk + k) a else a)).
    intros k a _. simpl. rewrite mod_ok by assumption. simpl.
    unfold owned_by, spec_owner, global_offset. simpl.
    now destruct ((s * nk + k) mod N =? j).
Qed.

Lemma set_sk_list_ok (self : pool_class.t) (N j nspin nk nk_use : Z) :
  pool_class.n self = Some N -> pool_class.i self = Some j ->
  0 < N -> 0 <= nk_use ->
  pool_class.set_sk_list self nspin nk nk_use =
  Py.Ok (pool_class.with_sk self nspin nk nk_use
           (k_major nspin
              (Py.range2 (block_start nk_use N j) (block_start nk_use N (j + 1))),
            map (global_offset nk)
              (k_major nspin
                 (Py.range2 (block_start nk_use N j)
                    (block_start nk_use N (j + 1)))))).
Proof.
  intros Hn Hi HN Hk. unfold pool_class.set_sk_list.
  rewrite Hn, Hi. simpl.
  rewrite int_truediv_floor by lia. simpl.
  rewrite mod_ok by lia. simpl.
  fold (block_start nk_use N j).
  replace (block_start nk_use N j + nk_use / N
           + Py.int_of_bool (j <? nk_use mod N))
    with (block_start nk_use N (j + 1)).
  2:{ unfold block_start, Py.int_of_bool.
      destruct (Z.ltb_spec j (nk_use mod N)); lia. }
  rewrite (for_pure _ _
             (fun k st =>
                fold_left
                  (fun a s => pool_class.append_sk s k (s * nk + k) a)
                  (Py.range nspin) st)).
  - simpl. do 2 f_equal.
    rewrite (fold_nested (fun k s => (s, k))
               (fun sk a =>
                  pool_class.append_sk (fst sk) (snd sk)
                    (fst sk * nk + snd sk) a)).
    fold (k_major nspin
            (Py.range2 (block_start nk_use N j) (block_start nk_use N (j + 1)))).
    rewrite <- (filter_true
                  (k_major nspin
                     (Py.range2 (block_start nk_use N j)
                        (block_start nk_use N (j + 1))))) at 2 3.
    apply (collect_selected nk (fun _ => true)).
  - intros k st _.
    apply (for_pure _ _
             (fun s a => pool_class.append_sk s k (s * nk + k) a)).
    intros s a _. reflexivity.
Qed.

(** ** The striped policy *)

Lemma in_work_space (nspin nk_use s k : Z) :
  In (s, k) (work_space nspin nk_use) <-> 0 <= s < nspin /\ 0 <= k < nk_use.
Proof.
  unfold work_space. rewrite in_flat_map. split.
  - intros (s' & Hs & Hin). apply in_map_iff in Hin.
    destruct Hin as (k' & E & Hk). inversion E; subst.
    apply in_range in Hs. apply in_range in Hk. now split.
  - intros [Hs Hk]. exists s. split; [now apply in_range |].
    apply in_map_iff. exists k. split; [reflexivity | now apply in_range].
Qed.

(** C6: under the striped policy the pool of id [j] among [N] receives, in
    the order of the work space, exactly the tuples [(s, k)] with
    [(s * nk + k) mod N = j]; [sk_offset] holds their global offsets and
    [nsk] their number.  With nspin = 2, nk = nk_use = 5 and N = 3, pool 0
    receives [(0,0),(0,3),(1,1),(1,4)] at offsets [0,3,6,9]. *)
Theorem striped_assignment (self : pool_class.t) (N j nspin nk nk_use : Z) :
  pool_class.n self = Some N -> pool_class.i self = Some j -> 1 <= N ->
  (exists self',
     pool_class.set_sk_list_v1 self nspin nk nk_use = Py.Ok self' /\
     pool_class.sk_list self' =
       Some (filter (fun sk => (fst sk * nk + snd sk) mod N =? j)
                    (work_space nspin nk_use)) /\
     (forall l, pool_class.sk_list self' = Some l ->
        pool_class.sk_offset self' = Some (map (fun sk => fst sk * nk + snd sk) l) /\
        pool_class.nsk self' = Some (Z.of_nat (length l)) /\
        forall s k,
          In (s, k) l <->
          (0 <= s < nspin /\ 0 <= k < nk_use) /\ (s * nk + k) mod N = j)) /\
  sk_list_of (pool_class.set_sk_list_v1 (pool_of 3 0) 2 5 5) =
    [(0, 0); (0, 3); (1, 1); (1, 4)] /\
  sk_offset_of (pool_class.set_sk_list_v1 (pool_of 3 0) 2 5 5) = [0; 3; 6; 9].
Proof.
  intros Hn Hi HN. split; [| split; reflexivity].
  rewrite (set_sk_list_v1_ok self N j nspin nk nk_use Hn Hi) by lia.
  eexists. split; [reflexivity |]. split; [reflexivity |].
  intros l Hl. simpl in Hl. injection Hl as <-.
  split; [reflexivity |]. split; [reflexivity |].
  intros s k. rewrite filter_In, in_work_space.
  unfold owned_by, spec_owner, global_offset. simpl.
  now rewrite Z.eqb_eq.
Qed.

Lemma striped_assignment_witness :
  (exists self',
     pool_class.set_sk_list_v1 (pool_of 3 1) 2 5 5 = Py.Ok self' /\
     pool_class.sk_list self' =
       Some (filter (fun sk => (fst sk * 5 + snd sk) mod 3 =? 1)
                    (work_space 2 5)) /\
     (forall l, pool_class.sk_list self' = Some l ->
        pool_class.sk_offset self' = Some (map (fun sk => fst sk * 5 + snd sk) l) /\
        pool_class.nsk self' = Some (Z.of_nat (length l)) /\
        forall s k,
          In (s, k) l <->
          (0 <= s < 2 /\ 0 <= k < 5) /\ (s * 5 + k) mod 3 = 1)) /\
  sk_list_of (pool_class.set_sk_list_v1 (pool_of 3 0) 2 5 5) =
    [(0, 0); (0, 3); (1, 1); (1, 4)] /\
  sk_offset_of (pool_class.set_sk_list_v1 (pool_of 3 0) 2 5 5) = [0; 3; 6; 9].
Proof.
  apply (striped_assignment (pool_of 3 1) 3 1 2 5 5);
    [reflexivity | reflexivity | lia].
Defined.

(** ** The block policy *)

Lemma block_start_step (nk_use N j : Z) :
  block_start nk_use N (j + 1) =
  block_start nk_use N j + spec_block_size nk_use N j.
Proof.
  unfold block_start, spec_block_size.
  destruct (Z.ltb_spec j (nk_use mod N)); lia.
Qed.

(** The closed form of [start_k] is the sum of the sizes of the blocks
    before it. *)
Lemma block_start_spec (nk_use N j : Z) :
  0 < N -> 0 <= j -> block_start nk_use N j = spec_block_start nk_use N j.
Proof.
  intros HN Hj. unfold spec_block_start.
  pose proof (Z.mod_pos_bound nk_use N HN) as Hr.
  rewrite <- (Z2Nat.id j Hj). generalize (Z.to_nat j) as m. clear j Hj.
  induction m as [| m IH].
  - simpl. unfold block_start. lia.
  - rewrite Nat2Z.inj_succ. unfold Z.succ. unfold Py.range in *.
    rewrite range2_snoc by lia.
    rewrite fold_left_app. simpl. rewrite <- IH.
    apply block_start_step.
Qed.

Lemma block_start_bounds (nk_use N j : Z) :
  0 < N -> 0 <= nk_use -> 0 <= j ->
  block_start nk_use N j <= block_start nk_use N (j + 1).
Proof.
  intros HN Hk Hj. rewrite block_start_step. unfold spec_block_size.
  pose proof (Z.div_pos nk_use N Hk HN).
  destruct (Z.ltb_spec j (nk_use mod N)); lia.
Qed.

Lemma block_start_total (nk_use N : Z) :
  0 < N -> block_start nk_use N 0 = 0 /\ block_start nk_use N N = nk_use.
Proof.
  intros HN. unfold block_start.
  pose proof (Z.mod_pos_bound nk_use N HN) as Hr.
  pose proof (Z_div_mod_eq_full nk_use N) as E.
  split; lia.
Qed.

(** Consecutive blocks, laid end to end, rebuild the range they cut. *)
Lemma blocks_tile (b : Z -> Z) (m : nat) :
  (forall j, 0 <= j -> b j <= b (j + 1)) ->
  flat_map (fun j => Py.range2 (b j) (b (j + 1))) (Py.range (Z.of_nat m)) =
  Py.range2 (b 0) (b (Z.of_nat m)).
Proof.
  intros Hb. induction m as [| m IH].
  - simpl. now rewrite range2_empty by lia.
  - assert (Hmono : b 0 <= b (Z.of_nat m)).
    { clear IH. induction m as [| m IHm]; [simpl; lia |].
      rewrite Nat2Z.inj_succ. unfold Z.succ.
      specialize (Hb (Z.of_nat m) ltac:(lia)). lia. }
    rewrite Nat2Z.inj_succ. unfold Z.succ. unfold Py.range in *.
    rewrite range2_snoc by lia.
    rewrite flat_map_app, IH. simpl. rewrite app_nil_r.
    symmetry. apply range2_app; [assumption |]. apply Hb. lia.
Qed.

Lemma in_k_major (nspin : Z) (ks : list Z) (s k : Z) :
  In (s, k) (k_major nspin ks) <-> 0 <= s < nspin /\ In k ks.
Proof.
  unfold k_major. rewrite in_flat_map. split.
  - intros (k' & Hk & Hin). apply in_map_iff in Hin.
    destruct Hin as (s' & E & Hs). inversion E; subst.
    apply in_range in Hs. now split.
  - intros [Hs Hk]. exists k. split; [assumption |].
    apply in_map_iff. exists s. split; [reflexivity | now apply in_range].
Qed.

Lemma flat_map_ext_on {A B : Type} (f g : A -> list B) (l : list A) :
  (forall x, In x l -> f x = g x) -> flat_map f l = flat_map g l.
Proof.
  induction l as [| x l IH]; intros H; simpl; [reflexivity |].
  rewrite (H x) by now left. f_equal. apply IH. intros y Hy. apply H. now right.
Qed.

Lemma blocks_cover (nk_use N : Z) :
  0 < N -> 0 <= nk_use ->
  flat_map (fun j => Py.range2 (block_start nk_use N j) (block_start nk_use N (j + 1)))
           (Py.range N) = Py.range nk_use.
Proof.
  intros HN Hk.
  destruct (block_start_total nk_use N HN) as [H0 HNN].
  pose proof (blocks_tile (block_start nk_use N) (Z.to_nat N)) as T.
  rewrite Z2Nat.id, H0, HNN in T by lia.
  apply T. intros j Hj. now apply block_start_bounds.
Qed.

(** C5: under the block policy the k-indices [[0, nk_use)] are cut into [N]
    consecutive blocks, the block of pool [j] having [floor(nk_use / N)]
    indices plus one when [j < nk_use mod N]; the pool receives the tuples of
    all spins for every k of its block, k-major and spin-minor, with their
    global offsets.  With nspin = 2, nk = nk_use = 5 and N = 3: pool 0
    receives [(0,0),(1,0),(0,1),(1,1)] at offsets [0,5,1,6], pool 1
    [(0,2),(1,2),(0,3),(1,3)] and pool 2 [(0,4),(1,4)]. *)
Theorem block_assignment (self : pool_class.t) (N j nspin nk nk_use : Z) :
  pool_class.n self = Some N -> pool_class.i self = Some j ->
  1 <= N -> 0 <= j < N -> 0 <= nk_use ->
  (exists self',
     pool_class.set_sk_list self nspin nk nk_use = Py.Ok self' /\
     pool_class.sk_list self' =
       Some (k_major nspin
               (Py.range2 (spec_block_start nk_use N j)
                  (spec_block_start nk_use N j + spec_block_size nk_use N j))) /\
     (forall l, pool_class.sk_list self' = Some l ->
        pool_class.sk_offset self' = Some (map (fun sk => fst sk * nk + snd sk) l) /\
        pool_class.nsk self' = Some (Z.of_nat (length l)))) /\
  flat_map (fun j' =>
              Py.range2 (spec_block_start nk_use N j')
                (spec_block_start nk_use N j' + spec_block_size nk_use N j'))
           (Py.range N) = Py.range nk_use /\
  sk_list_of (pool_class.set_sk_list (pool_of 3 0) 2 5 5) =
    [(0, 0); (1, 0); (0, 1); (1, 1)] /\
  sk_offset_of (pool_class.set_sk_list (pool_of 3 0) 2 5 5) = [0; 5; 1; 6] /\
  sk_list_of (pool_class.set_sk_list (pool_of 3 1) 2 5 5) =
    [(0, 2); (1, 2); (0, 3); (1, 3)] /\
  sk_list_of (pool_class.set_sk_list (pool_of 3 2) 2 5 5) = [(0, 4); (1, 4)].
Proof.
  intros Hn Hi HN Hj Hk.
  split; [| split; [| repeat split]].
  - rewrite (set_sk_list_ok self N j nspin nk nk_use Hn Hi) by lia.
    eexists. split; [reflexivity |].
    rewrite <- block_start_spec, <- block_start_step by lia.
    split; [reflexivity |].
    intros l Hl. simpl in Hl. injection Hl as <-.
    split; reflexivity.
  - rewrite <- (blocks_cover nk_use N) by lia.
    apply flat_map_ext_on. intros j' Hj'. apply in_range in Hj'.
    now rewrite <- block_start_spec, <- block_start_step by lia.
Qed.

Lemma block_assignment_witness :
  (exists self',
     pool_class.set_sk_list (pool_of 3 1) 2 5 5 = Py.Ok self' /\
     pool_class.sk_list self' =
       Some (k_major 2
               (Py.range2 (spec_block_start 5 3 1)
                  (spec_block_start 5 3 1 + spec_block_size 5 3 1))) /\
     (forall l, pool_class.sk_list self' = Some l ->
        pool_class.sk_offset self' = Some (map (fun sk => fst sk * 5 + snd sk) l) /\
        pool_class.nsk self' = Some (Z.of_nat (length l)))) /\
  flat_map (fun j' =>
              Py.range2 (spec_block_start 5 3 j')
                (spec_block_start 5 3 j' + spec_block_size 5 3 j'))
           (Py.range 3) = Py.range 5 /\
  sk_list_of (pool_class.set_sk_list (pool_of 3 0) 2 5 5) =
    [(0, 0); (1, 0); (0, 1); (1, 1)] /\
  sk_offset_of (pool_class.set_sk_list (pool_of 3 0) 2 5 5) = [0; 5; 1; 6] /\
  sk_list_of (pool_class.set_sk_list (pool_of 3 1) 2 5 5) =
    [(0, 2); (1, 2); (0, 3); (1, 3)] /\
  sk_list_of (pool_class.set_sk_list (pool_of 3 2) 2 5 5) = [(0, 4); (1, 4)].
Proof.
  apply (block_assignment (pool_of 3 1) 3 1 2 5 5);
    [reflexivity | reflexivity | lia | lia | lia].
Defined.

(** ** Both policies partition the work space *)

Lemma filter_split_perm {A : Type} (p q : A -> bool) (l : list A) :
  (forall x, In x l -> p x && q x = false) ->
  Permutation (filter p l ++ filter q l) (filter (fun x => p x || q x) l).
Proof.
  induction l as [| x l IH]; intros H; simpl; [constructor |].
  assert (IH' := IH (fun y Hy => H y (or_intror Hy))).
  specialize (H x (or_introl eq_refl)).
  destruct (p x), (q x); simpl in *; try discriminate.
  - now constructor.
  - symmetry. apply Permutation_cons_app. now symmetry.
  - assumption.
Qed.

(** Collecting, stripe after stripe, the elements whose key is the stripe
    number rearranges the elements whose key is a stripe number. *)
Lemma stripes_perm {A : Type} (key : A -> Z) (l : list A) (m : nat) :
  Permutation
    (flat_map (fun j => filter (fun x => key x =? j) l) (Py.range (Z.of_nat m)))
    (filter (fun x => (0 <=? key x) && (key x <? Z.of_nat m)) l).
Proof.
  induction m as [| m IH].
  - simpl. rewrite filter_none; [constructor |].
    intros x _. destruct (Z.leb_spec 0 (key x)), (Z.ltb_spec (key x) 0);
      simpl; try reflexivity; lia.
  - rewrite Nat2Z.inj_succ. unfold Z.succ. unfold Py.range in *.
    rewrite range2_snoc by lia.
    rewrite flat_map_app. simpl. rewrite app_nil_r.
    eapply Permutation_trans.
    + apply Permutation_app_tail. exact IH.
    + eapply Permutation_trans.
      * apply filter_split_perm. intros x _.
        destruct (Z.leb_spec 0 (key x)), (Z.ltb_spec (key x) (Z.of_nat m)),
          (Z.eqb_spec (key x) (Z.of_nat m)); simpl; try reflexivity; lia.
      * erewrite filter_ext; [apply Permutation_refl |].
        intros x. simpl.
        destruct (Z.leb_spec 0 (key x)), (Z.ltb_spec (key x) (Z.of_nat m)),
          (Z.eqb_spec (key x) (Z.of_nat m)),
          (Z.ltb_spec (key x) (Z.of_nat m + 1)); simpl; try reflexivity; lia.
Qed.

(** The two loop orders enumerate the same tuples. *)
Lemma k_major_perm (ss ks : list Z) :
  Permutation (flat_map (fun k => map (fun s => (s, k)) ss) ks)
              (flat_map (fun s => map (fun k => (s, k)) ks) ss).
Proof.
  induction ks as [| k ks IH]; simpl.
  - induction ss as [| s ss IHs]; simpl; [constructor | assumption].
  - eapply Permutation_trans; [apply Permutation_app_head, IH |].
    clear IH. induction ss as [| s ss IHs]; simpl; [constructor |].
    constructor.
    eapply Permutation_trans; [| apply Permutation_app_head, IHs].
    rewrite !app_assoc. apply Permutation_app_tail, Permutation_app_comm.
Qed.

Lemma NoDup_work_space (nspin nk_use : Z) : NoDup (work_space nspin nk_use).
Proof.
  unfold work_space.
  pose proof (NoDup_range2 0 nspin) as Hs. fold (Py.range nspin) in Hs.
  induction Hs as [| s ss Hnotin Hnd IH]; simpl; [constructor |].
  apply NoDup_app.
  - apply Finite.Injective_map_NoDup; [| apply NoDup_range2].
    intros k k' E. now inversion E.
  - exact IH.
  - intros [s' k] Hin Hin'.
    apply in_map_iff in Hin. destruct Hin as (k0 & E & _). inversion E; subst.
    apply in_flat_map in Hin'. destruct Hin' as (s0 & Hs0 & Hin').
    apply in_map_iff in Hin'. destruct Hin' as (k1 & E' & _).
    inversion E'; subst. contradiction.
Qed.

Lemma flat_map_flat_map {A B C : Type} (f : A -> list B) (g : B -> list C)
      (l : list A) :
  flat_map g (flat_map f l) = flat_map (fun x => flat_map g (f x)) l.
Proof.
  induction l as [| x l IH]; simpl; [reflexivity |].
  now rewrite flat_map_app, IH.
Qed.

(** In a duplicate-free concatenation an element sits in one part only. *)
Lemma NoDup_flat_map_unique {A B : Type} (f : A -> list B) (l : list A)
      (x y : A) (b : B) :
  NoDup l -> NoDup (flat_map f l) ->
  In x l -> In y l -> In b (f x) -> In b (f y) -> x = y.
Proof.
  induction l as [| a l IH]; intros Hl Hnd Hx Hy Hbx Hby; [contradiction |].
  simpl in Hnd. inversion Hl as [| ? ? Ha Hl']; subst.
  assert (Hdisj : forall z, In z l -> In b (f a) -> In b (f z) -> False).
  { intros z Hz Hba Hbz.
    apply NoDup_app_remove_l in Hnd as Hnd'.
    clear IH. revert Hnd. generalize (flat_map f l) (in_flat_map f l b).
    intros rest Hrest Hnd.
    assert (Hin : In b rest) by (apply Hrest; now exists z).
    clear Hrest. induction (f a) as [| c fa IHfa]; [contradiction |].
    simpl in Hnd. inversion Hnd as [| ? ? Hc Hnd'']; subst.
    destruct Hba as [-> | Hba].
    - apply Hc. apply in_or_app. now right.
    - now apply IHfa. }
  destruct Hx as [-> | Hx], Hy as [-> | Hy].
  - reflexivity.
  - exfalso. eauto.
  - exfalso. eauto.
  - apply IH; try assumption. now apply NoDup_app_remove_l in Hnd.
Qed.

Lemma pool_lists_striped (pools : Z -> pool_class.t) (N nspin nk nk_use j : Z) :
  pool_class.n (pools j) = Some N -> pool_class.i (pools j) = Some j -> 1 <= N ->
  assigned (assign striped (pools j) nspin nk nk_use) /\
  pool_lists striped pools nspin nk nk_use j =
  filter (owned_by nk N j) (work_space nspin nk_use).
Proof.
  intros Hn Hi HN. unfold pool_lists, assigned. simpl.
  rewrite (set_sk_list_v1_ok (pools j) N j nspin nk nk_use Hn Hi) by lia.
  split; [| reflexivity].
  do 3 eexists. repeat split.
Qed.

Lemma pool_lists_block (pools : Z -> pool_class.t) (N nspin nk nk_use j : Z) :
  pool_class.n (pools j) = Some N -> pool_class.i (pools j) = Some j ->
  1 <= N -> 0 <= nk_use ->
  assigned (assign block (pools j) nspin nk nk_use) /\
  pool_lists block pools nspin nk nk_use j =
  k_major nspin (Py.range2 (block_start nk_use N j) (block_start nk_use N (j + 1))).
Proof.
  intros Hn Hi HN Hk. unfold pool_lists, assigned. simpl.
  rewrite (set_sk_list_ok (pools j) N j nspin nk nk_use Hn Hi) by lia.
  split; [| reflexivity].
  do 3 eexists. repeat split.
Qed.

Lemma pool_lists_perm (policy : sk_policy) (pools : Z -> pool_class.t)
      (N nspin nk nk_use : Z) :
  0 <= nk_use -> 1 <= N ->
  (forall j, 0 <= j < N ->
     pool_class.n (pools j) = Some N /\ pool_class.i (pools j) = Some j) ->
  Permutation (flat_map (pool_lists policy pools nspin nk nk_use) (Py.range N))
              (work_space nspin nk_use).
Proof.
  intros Hk HN Hpools. destruct policy.
  - rewrite (flat_map_ext_on _
               (fun j => filter (fun sk => spec_owner nk N sk =? j)
                                (work_space nspin nk_use))).
    + rewrite <- (Z2Nat.id N) at 1 by lia.
      eapply Permutation_trans; [apply stripes_perm |].
      rewrite filter_all; [apply Permutation_refl |].
      intros sk _. unfold spec_owner.
      pose proof (Z.mod_pos_bound (global_offset nk sk) N ltac:(lia)).
      rewrite Z2Nat.id by lia.
      destruct (Z.leb_spec 0 (global_offset nk sk mod N)),
        (Z.ltb_spec (global_offset nk sk mod N) N); simpl; try reflexivity; lia.
    + intros j Hj. apply in_range in Hj. destruct (Hpools j Hj) as [Hn Hi].
      apply (pool_lists_striped pools N nspin nk nk_use j Hn Hi HN).
  - rewrite (flat_map_ext_on _
               (fun j => k_major nspin
                           (Py.range2 (block_start nk_use N j)
                              (block_start nk_use N (j + 1))))).
    + unfold k_major at 1.
      rewrite <- (flat_map_flat_map
                    (fun j => Py.range2 (block_start nk_use N j)
                                (block_start nk_use N (j + 1)))
                    (fun k => map (fun s => (s, k)) (Py.range nspin))).
      rewrite blocks_cover by lia.
      apply k_major_perm.
    + intros j Hj. apply in_range in Hj. destruct (Hpools j Hj) as [Hn Hi].
      apply (pool_lists_block pools N nspin nk nk_use j Hn Hi HN Hk).
Qed.

(** C1: for [nspin >= 1], [1 <= nk_use <= nk] and [N >= 1] pools, under the
    striped policy ([set_sk_list_v1]) as under the block policy
    ([set_sk_list]), the tuple sequences of the pools 0..N-1 partition the
    work space: their concatenation is a rearrangement of the work space
    without repetition, every tuple of the work space is in the sequence of
    exactly one pool, and no sequence holds a tuple outside the work space. *)
Theorem assignment_partitions (policy : sk_policy) (pools : Z -> pool_class.t)
        (N nspin nk nk_use : Z) :
  1 <= nspin -> 1 <= nk_use -> nk_use <= nk -> 1 <= N ->
  (forall j, 0 <= j < N ->
     pool_class.n (pools j) = Some N /\ pool_class.i (pools j) = Some j) ->
  (forall j, 0 <= j < N -> assigned (assign policy (pools j) nspin nk nk_use)) /\
  Permutation (flat_map (pool_lists policy pools nspin nk nk_use) (Py.range N))
              (work_space nspin nk_use) /\
  NoDup (flat_map (pool_lists policy pools nspin nk nk_use) (Py.range N)) /\
  (forall s k, 0 <= s < nspin -> 0 <= k < nk_use ->
     exists j,
       0 <= j < N /\ In (s, k) (pool_lists policy pools nspin nk nk_use j) /\
       forall j', 0 <= j' < N ->
         In (s, k) (pool_lists policy pools nspin nk nk_use j') -> j' = j) /\
  (forall j s k, 0 <= j < N ->
     In (s, k) (pool_lists policy pools nspin nk nk_use j) ->
     0 <= s < nspin /\ 0 <= k < nk_use).
Proof.
  intros Hs Hk Hnk HN Hpools.
  pose proof (pool_lists_perm policy pools N nspin nk nk_use
                ltac:(lia) HN Hpools) as Hperm.
  assert (Hnd : NoDup (flat_map (pool_lists policy pools nspin nk nk_use)
                                (Py.range N))).
  { apply (Permutation_NoDup (Permutation_sym Hperm)), NoDup_work_space. }
  split; [| split; [exact Hperm | split; [exact Hnd | split]]].
  - intros j Hj. destruct (Hpools j Hj) as [Hn Hi]. destruct policy.
    + apply (pool_lists_striped pools N nspin nk nk_use j Hn Hi HN).
    + apply (pool_lists_block pools N nspin nk nk_use j Hn Hi HN). lia.
  - intros s k Hs' Hk'.
    assert (Hin : In (s, k) (work_space nspin nk_use))
      by (apply in_work_space; now split).
    apply (Permutation_in _ (Permutation_sym Hperm)) in Hin.
    apply in_flat_map in Hin. destruct Hin as (j & Hj & Hin).
    exists j. split; [now apply in_range |]. split; [exact Hin |].
    intros j' Hj' Hin'.
    apply (NoDup_flat_map_unique (pool_lists policy pools nspin nk nk_use)
             (Py.range N) j' j (s, k)); try assumption.
    + apply NoDup_range2.
    + now apply in_range.
  - intros j s k Hj Hin. apply in_work_space.
    apply (Permutation_in _ Hperm). apply in_flat_map.
    exists j. split; [now apply in_range | exact Hin].
Qed.

Lemma assignment_partitions_witness :
  (forall j, 0 <= j < 3 -> assigned (assign block (pool_of 3 j) 2 5 5)) /\
  Permutation (flat_map (pool_lists block (pool_of 3) 2 5 5) (Py.range 3))
              (work_space 2 5) /\
  NoDup (flat_map (pool_lists block (pool_of 3) 2 5 5) (Py.range 3)) /\
  (forall s k, 0 <= s < 2 -> 0 <= k < 5 ->
     exists j,
       0 <= j < 3 /\ In (s, k) (pool_lists block (pool_of 3) 2 5 5 j) /\
       forall j', 0 <= j' < 3 ->
         In (s, k) (pool_lists block (pool_of 3) 2 5 5 j') -> j' = j) /\
  (forall j s k, 0 <= j < 3 ->
     In (s, k) (pool_lists block (pool_of 3) 2 5 5 j) ->
     0 <= s < 2 /\ 0 <= k < 5).
Proof.
  apply (assignment_partitions block (pool_of 3) 3 2 5 5);
    [lia | lia | lia | lia | intros j _; split; reflexivity].
Defined.

(** ** The brightest transition: local maxima, then a MAX all-reduce *)

Lemma in_range3 (a b step x : Z) :
  0 < step ->
  (In x (Py.range3 a b step) <-> a <= x < b /\ (x - a) mod step = 0).
Proof.
  intros Hstep. unfold Py.range3. rewrite in_map_iff. split.
  - intros (j & <- & Hj). apply in_seq in Hj.
    assert (Hlt : Z.of_nat j < (b - a + step - 1) / step) by lia.
    assert (Hle : step * (Z.of_nat j + 1) <= b - a + step - 1).
    { pose proof (Z.mul_div_le (b - a + step - 1) step Hstep). nia. }
    split; [nia |].
    replace (a + step * Z.of_nat j - a) with (Z.of_nat j * step) by lia.
    apply Z_mod_mult.
  - intros [Hx Hmod].
    pose proof (Z_div_mod_eq_full (x - a) step) as E. rewrite Hmod in E.
    assert (Hq : 0 <= (x - a) / step) by (apply Z.div_pos; lia).
    exists (Z.to_nat ((x - a) / step)). split; [lia |].
    apply in_seq. split; [lia |]. simpl.
    assert ((x - a) / step < (b - a + step - 1) / step); [| lia].
    apply Z.div_lt_upper_bound; [lia |].
    pose proof (Z.mul_succ_div_gt (b - a + step - 1) step Hstep). nia.
Qed.

(** The strided index lists of the processes cover the frequency axis. *)
Lemma iw_local_cover (size nener_in w : Z) :
  1 <= size ->
  (In w (concat (map (fun peer => rixs.iw_local peer size nener_in)
                     (Py.range size))) <->
   In w (Py.range (nener_in + 1))).
Proof.
  intros Hsize. rewrite <- flat_map_concat_map, in_flat_map, in_range.
  unfold rixs.iw_local. split.
  - intros (peer & Hpeer & Hin). apply in_range in Hpeer.
    apply in_range3 in Hin; lia.
  - intros Hw. exists (w mod size).
    pose proof (Z.mod_pos_bound w size ltac:(lia)) as Hb.
    split; [now apply in_range |].
    apply in_range3; [lia |]. split.
    + pose proof (Z.mod_le w size ltac:(lia) ltac:(lia)). lia.
    + rewrite Zminus_mod, Z.mod_mod, Z.sub_diag by lia. apply Z.mod_0_l. lia.
Qed.

Section brightest_facts.

Variable V : Type.
Variable zero : V.
Variable gt : V -> V -> bool.
Variable mag : Z -> V.

Hypothesis gt_irrefl : forall a, gt a a = false.
Hypothesis gt_trans : forall a b c, gt a b = true -> gt b c = true -> gt a c = true.
Hypothesis gt_total : forall a b, gt a b = false -> gt b a = false -> a = b.

Lemma gt_asym (a b : V) : gt a b = true -> gt b a = false.
Proof.
  intros Hab. destruct (gt b a) eqn:Hba; [| reflexivity].
  rewrite <- (gt_irrefl a). symmetry. now apply (gt_trans a b a).
Qed.

Lemma not_gt_trans (a b c : V) :
  gt a b = false -> gt b c = false -> gt a c = false.
Proof.
  intros Hab Hbc. destruct (gt a c) eqn:Hac; [| reflexivity].
  destruct (gt c b) eqn:Hcb.
  - rewrite <- Hab. symmetry. now apply (gt_trans a c b).
  - assert (b = c) by now apply gt_total. subst. congruence.
Qed.

Lemma max_picks_greater : rixs.picks_greater V gt (rixs.max V gt).
Proof.
  intros a b. unfold rixs.max. destruct (gt b a) eqn:E.
  - repeat split; [now right | now apply gt_asym | apply gt_irrefl].
  - repeat split; [now left | apply gt_irrefl | assumption].
Qed.

Lemma MPI_MAX_picks_greater : rixs.picks_greater V gt (rixs.MPI_MAX V gt).
Proof.
  intros a b. unfold rixs.MPI_MAX. destruct (gt a b) eqn:E.
  - repeat split; [now left | apply gt_irrefl | now apply gt_asym].
  - repeat split; [now right | assumption | apply gt_irrefl].
Qed.

Lemma fold_is_maximum (op : V -> V -> V) (l : list V) (a : V) :
  rixs.picks_greater V gt op -> rixs.is_maximum V gt (fold_left op l a) (a :: l).
Proof.
  intros Hop. revert a. induction l as [| x l IH]; intros a; simpl.
  - split; [now left |]. intros y [<- | []]. apply gt_irrefl.
  - destruct (IH (op a x)) as [Hin Hub].
    destruct (Hop a x) as (Hpick & Ha & Hx). split.
    + destruct Hin as [<- | Hin].
      * destruct Hpick as [-> | ->]; [now left | right; now left].
      * right. now right.
    + intros y [<- | [<- | Hy]].
      * apply (not_gt_trans _ (op a x)); [assumption |]. apply Hub. now left.
      * apply (not_gt_trans _ (op a x)); [assumption |]. apply Hub. now left.
      * apply Hub. now right.
Qed.

Lemma maximum_unique (x y : V) (l l' : list V) :
  (forall z, In z l <-> In z l') ->
  rixs.is_maximum V gt x l -> rixs.is_maximum V gt y l' -> x = y.
Proof.
  intros Hsame [Hx Hxub] [Hy Hyub].
  apply gt_total.
  - apply Hyub. now apply Hsame.
  - apply Hxub. now apply Hsame.
Qed.

Lemma local_max_is_maximum (indices : list Z) :
  rixs.is_maximum V gt (rixs.local_max V zero gt mag indices)
                  (zero :: map mag indices).
Proof.
  unfold rixs.local_max.
  rewrite <- (fold_left_over_map mag (rixs.max V gt)).
  apply fold_is_maximum, max_picks_greater.
Qed.

Lemma partitioned_max_is_maximum (parts : list (list Z)) :
  rixs.is_maximum V gt (rixs.partitioned_max V zero gt mag parts)
                  (zero :: map mag (concat parts)).
Proof.
  unfold rixs.partitioned_max, rixs.allreduce_MAX.
  destruct parts as [| p parts]; simpl.
  - split; [now left |]. intros y [<- | []]. apply gt_irrefl.
  - destruct (fold_is_maximum (rixs.MPI_MAX V gt)
                (map (rixs.local_max V zero gt mag) parts)
                (rixs.local_max V zero gt mag p) MPI_MAX_picks_greater)
      as [Hin Hub].
    set (r := fold_left _ _ _) in *.
    change (rixs.local_max V zero gt mag p
              :: map (rixs.local_max V zero gt mag) parts)
      with (map (rixs.local_max V zero gt mag) (p :: parts)) in Hin, Hub.
    change (p ++ concat parts) with (concat (p :: parts)).
    split.
    + apply in_map_iff in Hin. destruct Hin as (q & <- & Hq).
      destruct (local_max_is_maximum q) as [[E | Hin] _].
      * left. exact E.
      * right. apply in_map_iff in Hin. destruct Hin as (w & <- & Hw).
        apply in_map, in_concat. now exists q.
    + intros y [<- | Hy].
      * apply (not_gt_trans _ (rixs.local_max V zero gt mag p)).
        -- apply (local_max_is_maximum p). now left.
        -- apply Hub. now left.
      * apply in_map_iff in Hy. destruct Hy as (w & <- & Hw).
        apply in_concat in Hw. destruct Hw as (q & Hq & Hw).
        apply (not_gt_trans _ (rixs.local_max V zero gt mag q)).
        -- apply (local_max_is_maximum q). right. now apply in_map.
        -- apply Hub. now apply in_map.
Qed.

End brightest_facts.

Lemma same_indices_same_values {V : Type} (zero : V) (mag : Z -> V)
      (l l' : list Z) :
  (forall w, In w l <-> In w l') ->
  forall z, In z (zero :: map mag l) <-> In z (zero :: map mag l').
Proof.
  intros Hsame z. simpl. rewrite !in_map_iff.
  split; (intros [E | (w & E & Hw)]; [now left | right; exists w]);
    (split; [exact E | now apply Hsame]).
Qed.

(** With one process per stride, [Mv1c1_max] is the two-step maximum over
    the strided distribution of the frequencies. *)
Lemma Mv1c1_max_partitioned {V : Type} (zero : V) (gt : V -> V -> bool)
      (mag : Z -> V) (rank size nener_in : Z) :
  1 <= size -> 0 <= rank < size ->
  rixs.Mv1c1_max V zero gt mag rank size nener_in =
  rixs.partitioned_max V zero gt mag
    (map (fun peer => rixs.iw_local peer size nener_in) (Py.range size)).
Proof.
  intros Hsize Hrank. unfold rixs.Mv1c1_max, rixs.partitioned_max.
  rewrite map_map. unfold Py.range. rewrite range2_cons by lia. simpl.
  destruct (Z.ltb_spec 1 size) as [Hgt | Hle]; [reflexivity |].
  assert (size = 1) by lia. assert (rank = 0) by lia. subst.
  rewrite range2_empty by lia. reflexivity.
Qed.

(** The statements of lines 151-155 taken alone (a local maximum on every
    process, then an all-reduce with MAX) yield the maximum over the whole
    frequency axis, equal to what a single process computes, for every
    number of processes; and the two-step maximum has the same value for any
    two distributions of the same indices among the processes. *)
Theorem Mv1c1_max_partition_invariant (V : Type) (zero : V)
        (gt : V -> V -> bool) (mag : Z -> V) :
  (forall a, gt a a = false) ->
  (forall a b c, gt a b = true -> gt b c = true -> gt a c = true) ->
  (forall a b, gt a b = false -> gt b a = false -> a = b) ->
  (forall rank size nener_in,
     1 <= size -> 0 <= rank < size ->
     rixs.Mv1c1_max V zero gt mag rank size nener_in =
       rixs.local_max V zero gt mag (Py.range (nener_in + 1)) /\
     rixs.is_maximum V gt (rixs.Mv1c1_max V zero gt mag rank size nener_in)
       (zero :: map mag (Py.range (nener_in + 1)))) /\
  (forall parts parts',
     (forall w, In w (concat parts) <-> In w (concat parts')) ->
     rixs.partitioned_max V zero gt mag parts =
     rixs.partitioned_max V zero gt mag parts').
Proof.
  intros Hirr Htrans Htot. split.
  - intros rank size nener_in Hsize Hrank.
    assert (E : rixs.Mv1c1_max V zero gt mag rank size nener_in =
                rixs.local_max V zero gt mag (Py.range (nener_in + 1))).
    { rewrite Mv1c1_max_partitioned by assumption.
      eapply (maximum_unique V gt Htot).
      - apply same_indices_same_values.
        intros w. apply (iw_local_cover size nener_in w Hsize).
      - apply partitioned_max_is_maximum; assumption.
      - apply local_max_is_maximum; assumption. }
    split; [exact E |]. rewrite E.
    apply local_max_is_maximum; assumption.
  - intros parts parts' Hsame.
    eapply (maximum_unique V gt Htot).
    + apply same_indices_same_values. exact Hsame.
    + apply partitioned_max_is_maximum; assumption.
    + apply partitioned_max_is_maximum; assumption.
Qed.

Lemma Mv1c1_max_partition_invariant_witness :
  (forall rank size nener_in,
     1 <= size -> 0 <= rank < size ->
     rixs.Mv1c1_max Z 0 Z.gtb (fun w => Z.abs (w - 3)) rank size nener_in =
       rixs.local_max Z 0 Z.gtb (fun w => Z.abs (w - 3)) (Py.range (nener_in + 1)) /\
     rixs.is_maximum Z Z.gtb
       (rixs.Mv1c1_max Z 0 Z.gtb (fun w => Z.abs (w - 3)) rank size nener_in)
       (0 :: map (fun w => Z.abs (w - 3)) (Py.range (nener_in + 1)))) /\
  (forall parts parts',
     (forall w, In w (concat parts) <-> In w (concat parts')) ->
     rixs.partitioned_max Z 0 Z.gtb (fun w => Z.abs (w - 3)) parts =
     rixs.partitioned_max Z 0 Z.gtb (fun w => Z.abs (w - 3)) parts').
Proof.
  apply (Mv1c1_max_partition_invariant Z 0 Z.gtb (fun w => Z.abs (w - 3))).
  - intros a. rewrite Z.gtb_ltb. apply Z.ltb_irrefl.
  - intros a b c. rewrite !Z.gtb_ltb, !Z.ltb_lt. lia.
  - intros a b. rewrite !Z.gtb_ltb, !Z.ltb_ge. lia.
Defined.

(** The names that must be bound for [rixs_f1] to reach the search for the
    brightest transition, and what it computes when they are. *)
Lemma rixs_f1_reaches_maximum (V : Type) (zero : V) (gt : V -> V -> bool)
      (mag : Z -> V) (bound : string -> bool) (rank size nener_in : Z) (v : V) :
  rixs.rixs_f1 V zero gt mag bound rank size nener_in = rixs.Ok v <->
  (bound "e_lo_out"%string = true /\ bound "e_hi_out"%string = true /\
   bound "gamma_f"%string = true) /\
  v = rixs.Mv1c1_max V zero gt mag rank size nener_in.
Proof.
  unfold rixs.rixs_f1, rixs.load_global.
  destruct (bound "e_lo_out"%string), (bound "e_hi_out"%string), (bound "gamma_f"%string); simpl;
    split; try discriminate;
    try (intros [(H1 & H2 & H3) _]; discriminate).
  - intros E. injection E as <-. repeat split.
  - intros [_ ->]. reflexivity.
Qed.



(** * Further properties of the pool topology *)

(** ** Sorted lists of ranks *)

Lemma sorted_map_seq (g : nat -> Z) (start len : nat) :
  (forall a b, (a < b)%nat -> g a < g b) ->
  StronglySorted Z.lt (map g (seq start len)).
Proof.
  intros Hg. revert start. induction len as [| len IH]; intros start; simpl.
  - constructor.
  - constructor; [apply IH |].
    apply Forall_forall. intros x Hx. apply in_map_iff in Hx.
    destruct Hx as (b & <- & Hb). apply in_seq in Hb. apply Hg. lia.
Qed.

Lemma sorted_range2 (a b : Z) : StronglySorted Z.lt (Py.range2 a b).
Proof. unfold Py.range2. apply sorted_map_seq. intros; lia. Qed.

Lemma sorted_range3 (a b step : Z) :
  0 < step -> StronglySorted Z.lt (Py.range3 a b step).
Proof. intros H. unfold Py.range3. apply sorted_map_seq. intros; nia. Qed.

Lemma sorted_filter (f : Z -> bool) (l : list Z) :
  StronglySorted Z.lt l -> StronglySorted Z.lt (filter f l).
Proof.
  induction 1 as [| x l Hl IH Hx]; simpl; [constructor |].
  destruct (f x); [| assumption].
  constructor; [assumption |].
  rewrite Forall_forall in *. intros y Hy. apply filter_In in Hy.
  apply Hx, Hy.
Qed.

(** Two increasing lists with the same elements are the same list. *)
Lemma sorted_ext (l l' : list Z) :
  StronglySorted Z.lt l -> StronglySorted Z.lt l' ->
  (forall x, In x l <-> In x l') -> l = l'.
Proof.
  intros Hl. revert l'. induction Hl as [| x l Hl IH Hx]; intros l' Hl' Hsame.
  - destruct l' as [| y l']; [reflexivity |].
    exfalso. apply (proj2 (Hsame y)). now left.
  - destruct Hl' as [| y l' Hl' Hy].
    + exfalso. apply (proj1 (Hsame x)). now left.
    + rewrite Forall_forall in Hx, Hy.
      assert (x = y).
      { destruct (proj1 (Hsame x) (or_introl eq_refl)) as [E | Hin];
          [now symmetry |].
        destruct (proj2 (Hsame y) (or_introl eq_refl)) as [E | Hin'];
          [assumption |].
        specialize (Hx _ Hin'). specialize (Hy _ Hin). lia. }
      subst y. f_equal. apply IH; [assumption |].
      intros z. split; intros Hz.
      * destruct (proj1 (Hsame z) (or_intror Hz)) as [E | Hin]; [| assumption].
        subst z. specialize (Hx _ Hz). lia.
      * destruct (proj2 (Hsame z) (or_intror Hz)) as [E | Hin]; [| assumption].
        subst z. specialize (Hy _ Hz). lia.
Qed.

(** ** Intra-pool ranks and pool roots *)

Lemma zero_positions_filter (g : Z -> Z) (a b : Z) :
  Py.zero_positions a (map g (Py.range2 a b)) =
  filter (fun r => g r =? 0) (Py.range2 a b).
Proof.
  remember (Z.to_nat (b - a)) as len eqn:Hlen.
  revert a Hlen. induction len as [| len IH]; intros a Hlen.
  - now rewrite range2_empty by lia.
  - rewrite range2_cons by lia. simpl.
    rewrite (IH (a + 1)) by lia. reflexivity.
Qed.

Lemma index_app_notin (x : Z) (pre l : list Z) :
  ~ In x pre -> MPI.index x (pre ++ l) = Z.of_nat (length pre) + MPI.index x l.
Proof.
  induction pre as [| y pre IH]; intros Hnot; [reflexivity |].
  cbn [app MPI.index length].
  destruct (Z.eqb_spec y x) as [-> | _]; [exfalso; apply Hnot; now left |].
  rewrite IH by (intros H; apply Hnot; now right). lia.
Qed.

(** The rank of a process inside a communicator split off the world is the
    number of its members with a lower world rank. *)
Lemma index_filter_range (f : Z -> bool) (P x : Z) :
  0 <= x < P -> f x = true ->
  MPI.index x (filter f (Py.range P)) =
  Z.of_nat (length (filter f (Py.range x))).
Proof.
  intros Hx Hf. unfold Py.range.
  rewrite (range2_app 0 x P), (range2_cons x P), filter_app by lia.
  simpl. rewrite Hf.
  rewrite index_app_notin.
  - simpl. rewrite Z.eqb_refl. lia.
  - intros Hin. apply filter_In in Hin. destruct Hin as [Hin _].
    apply in_range2 in Hin. lia.
Qed.

Lemma split_color_pool_id (P M r : Z) (remainder_mode : bool) :
  1 <= M -> 0 <= r < P ->
  pool_class.split_color P M remainder_mode r = pool_id_of P M remainder_mode r.
Proof.
  intros HM Hr. unfold pool_class.split_color.
  rewrite topology_ok, pool_id_of_ok by lia.
  destruct remainder_mode; [| reflexivity].
  rewrite mod_ok; [reflexivity |].
  pose proof (spec_pool_count_pos P M ltac:(lia) HM). lia.
Qed.

Lemma same_pool_iff (P M r r' : Z) (remainder_mode : bool) :
  1 <= M -> 0 <= r < P -> 0 <= r' < P ->
  (same_pool P M remainder_mode r r' = true <->
   pool_id_of P M remainder_mode r' = pool_id_of P M remainder_mode r).
Proof.
  intros HM Hr Hr'. unfold same_pool.
  rewrite !split_color_pool_id by lia.
  rewrite !pool_id_of_ok by lia.
  rewrite Z.eqb_eq. split; [intros ->; reflexivity | intros E; now inversion E].
Qed.

(** Everything [set_pool] leaves on the object of a process of an MPI world. *)
Lemma set_pool_mpi (P M r : Z) (remainder_mode : bool) :
  1 <= M -> 0 <= r < P ->
  exists self' j,
    pool_class.set_pool (fresh_pool P r) M remainder_mode = Py.Ok self' /\
    pool_id_of P M remainder_mode r = Some j /\
    pool_class.npp self' = Some (spec_clamp P M) /\
    pool_class.n self' = Some (spec_pool_count P M) /\
    pool_class.i self' = Some j /\
    pool_class.up self' = true /\
    pool_class.para self' = para_class.init_mpi P r /\
    pool_class.comm self' =
      Some (Some (MPI.Intracomm
                    (filter (same_pool P M remainder_mode r) (Py.range P)))) /\
    pool_class.size self' =
      Some (Z.of_nat (length (filter (same_pool P M remainder_mode r)
                                     (Py.range P)))) /\
    pool_class.rank self' =
      Some (Z.of_nat (length (filter (same_pool P M remainder_mode r)
                                     (Py.range r)))) /\
    pool_class.roots self' =
      Some (filter (fun x =>
                      Z.of_nat (length (filter (same_pool P M remainder_mode x)
                                               (Py.range x))) =? 0)
                   (Py.range P)) /\
    pool_class.rootcomm self' =
      Some (Some (MPI.Create_group
                    (filter (fun x =>
                               Z.of_nat (length (filter (same_pool P M remainder_mode x)
                                                        (Py.range x))) =? 0)
                            (Py.range P)) r)).
Proof.
  intros HM Hr.
  assert (Hself : forall x, 0 <= x < P -> same_pool P M remainder_mode x x = true).
  { intros x Hx. now apply same_pool_iff. }
  assert (Hrank : forall x, 0 <= x < P ->
            MPI.Get_rank (pool_class.pool_comm P M remainder_mode x) x =
            Z.of_nat (length (filter (same_pool P M remainder_mode x) (Py.range x)))).
  { intros x Hx. unfold MPI.Get_rank, pool_class.pool_comm, MPI.Split. simpl.
    apply (index_filter_range (same_pool P M remainder_mode x) P x Hx (Hself x Hx)). }
  assert (Hroots :
            Py.zero_positions 0
              (MPI.gather_bcast (Py.range P)
                 (fun peer => MPI.Get_rank (pool_class.pool_comm P M remainder_mode peer) peer)) =
            filter (fun x =>
                      Z.of_nat (length (filter (same_pool P M remainder_mode x)
                                               (Py.range x))) =? 0)
                   (Py.range P)).
  { unfold MPI.gather_bcast, Py.range. rewrite zero_positions_filter.
    apply filter_ext_in. intros x Hx. apply in_range2 in Hx.
    now rewrite Hrank by lia. }
  pose proof (pool_id_of_ok P M r remainder_mode HM ltac:(lia) ltac:(lia)) as Hid.
  unfold pool_class.set_pool, fresh_pool. simpl.
  destruct (Z.ltb_spec 0 M); [| lia].
  rewrite topology_ok by lia. simpl.
  do 2 eexists. split; [reflexivity |]. simpl.
  split; [exact Hid |].
  rewrite Hroots, (Hrank r Hr).
  repeat split.
Qed.

Lemma filter_below (f : Z -> bool) (P r : Z) :
  0 <= r <= P ->
  filter (fun y => y <? r) (filter f (Py.range P)) = filter f (Py.range r).
Proof.
  intros Hr. unfold Py.range.
  rewrite (range2_app 0 r P), !filter_app by lia.
  rewrite (filter_all (fun y => y <? r) (filter f (Py.range2 0 r))),
    (filter_none (fun y => y <? r) (filter f (Py.range2 r P))).
  - apply app_nil_r.
  - intros y Hy. apply filter_In in Hy. destruct Hy as [Hy _].
    apply in_range2 in Hy. apply Z.ltb_ge. lia.
  - intros y Hy. apply filter_In in Hy. destruct Hy as [Hy _].
    apply in_range2 in Hy. apply Z.ltb_lt. lia.
Qed.

Lemma same_pool_members (P M r j : Z) (remainder_mode : bool) :
  1 <= M -> 0 <= r < P -> pool_id_of P M remainder_mode r = Some j ->
  filter (same_pool P M remainder_mode r) (Py.range P) =
  pool_members P M remainder_mode j.
Proof.
  intros HM Hr Hj. unfold pool_members.
  apply filter_ext_in. intros y Hy. apply in_range in Hy.
  unfold same_pool. rewrite !split_color_pool_id, Hj by lia.
  destruct (pool_id_of P M remainder_mode y); reflexivity.
Qed.

Lemma length_zero_iff_none (f : Z -> bool) (l : list Z) :
  (Z.of_nat (length (filter f l)) =? 0) = true <->
  forall y, In y l -> f y = false.
Proof.
  rewrite Z.eqb_eq. split.
  - intros Hlen y Hy. destruct (f y) eqn:E; [| reflexivity].
    assert (Hin : In y (filter f l)) by (apply filter_In; now split).
    destruct (filter f l); [contradiction | simpl in Hlen; lia].
  - intros Hnone. now rewrite filter_none.
Qed.

(** X1: [roots] holds, in increasing order, exactly the ranks below which no
    rank has the same pool id; it does not depend on the process that
    computes it. *)
Theorem set_pool_roots_are_lowest (P M r : Z) (remainder_mode : bool) :
  1 <= M -> 0 <= r < P ->
  exists self' rs,
    pool_class.set_pool (fresh_pool P r) M remainder_mode = Py.Ok self' /\
    pool_class.roots self' = Some rs /\
    StronglySorted Z.lt rs /\
    forall x,
      In x rs <->
      0 <= x < P /\
      forall y, 0 <= y < x ->
        pool_id_of P M remainder_mode y <> pool_id_of P M remainder_mode x.
Proof.
  intros HM Hr.
  destruct (set_pool_mpi P M r remainder_mode HM Hr)
    as (self' & j & Hrun & _ & _ & _ & _ & _ & _ & _ & _ & _ & Hroots & _).
  exists self'. eexists. split; [exact Hrun |]. split; [exact Hroots |]. split.
  - apply sorted_filter, sorted_range2.
  - intros x. rewrite filter_In, in_range, length_zero_iff_none.
    split; intros [Hx Hlow]; (split; [exact Hx |]).
    + intros y Hy E.
      specialize (Hlow y (proj2 (in_range x y) Hy)).
      apply (same_pool_iff P M x y remainder_mode HM Hx ltac:(lia)) in E.
      congruence.
    + intros y Hy. apply in_range in Hy.
      destruct (same_pool P M remainder_mode x y) eqn:E; [| reflexivity].
      apply (same_pool_iff P M x y remainder_mode HM Hx ltac:(lia)) in E.
      exfalso. now apply (Hlow y Hy).
Qed.

Lemma set_pool_roots_are_lowest_witness :
  exists self' rs,
    pool_class.set_pool (fresh_pool 10 4) 3 false = Py.Ok self' /\
    pool_class.roots self' = Some rs /\
    StronglySorted Z.lt rs /\
    forall x,
      In x rs <->
      0 <= x < 10 /\
      forall y, 0 <= y < x -> pool_id_of 10 3 false y <> pool_id_of 10 3 false x.
Proof.
  apply (set_pool_roots_are_lowest 10 3 4 false); lia.
Defined.

(** X2: The rank of a process inside its pool is the number of members of the
    pool with a lower world rank, and [isroot] answers [True] exactly for
    the process whose rank inside the pool is 0. *)
Theorem isroot_iff_pool_rank_zero (P M r : Z) (remainder_mode : bool) :
  1 <= M -> 0 <= r < P ->
  exists self' j k b,
    pool_class.set_pool (fresh_pool P r) M remainder_mode = Py.Ok self' /\
    pool_class.i self' = Some j /\
    pool_class.rank self' = Some k /\
    k = Z.of_nat (length (filter (fun y => y <? r)
                                 (pool_members P M remainder_mode j))) /\
    pool_class.isroot self' = Py.Ok b /\
    (b = true <-> k = 0).
Proof.
  intros HM Hr.
  destruct (set_pool_mpi P M r remainder_mode HM Hr)
    as (self' & j & Hrun & Hid & _ & _ & Hi & _ & Hpara & _ & _ & Hrank & Hroots & _).
  exists self', j. do 2 eexists.
  split; [exact Hrun |]. split; [exact Hi |]. split; [exact Hrank |]. split.
  - rewrite <- (same_pool_members P M r j remainder_mode HM Hr Hid).
    now rewrite filter_below by lia.
  - unfold pool_class.isroot. rewrite Hroots, Hpara. simpl.
    split; [reflexivity |].
    rewrite existsb_exists. split.
    + intros (x & Hx & E). apply Z.eqb_eq in E. subst x.
      apply filter_In in Hx. destruct Hx as [_ Hx]. now apply Z.eqb_eq in Hx.
    + intros Hk. exists r. split; [| apply Z.eqb_refl].
      apply filter_In. split; [now apply in_range |]. now apply Z.eqb_eq.
Qed.

Lemma isroot_iff_pool_rank_zero_witness :
  exists self' j k b,
    pool_class.set_pool (fresh_pool 10 5) 3 true = Py.Ok self' /\
    pool_class.i self' = Some j /\
    pool_class.rank self' = Some k /\
    k = Z.of_nat (length (filter (fun y => y <? 5) (pool_members 10 3 true j))) /\
    pool_class.isroot self' = Py.Ok b /\
    (b = true <-> k = 0).
Proof.
  apply (isroot_iff_pool_rank_zero 10 3 5 true); lia.
Defined.

(** ** The remainder policy in full *)

Lemma mod_eq_iff (N j x : Z) :
  0 < N -> 0 <= j < N -> (x mod N = j <-> (x - j) mod N = 0).
Proof.
  intros HN Hj. split; intros H.
  - pose proof (Z_div_mod_eq_full x N) as E.
    replace (x - j) with (x / N * N) by lia. apply Z_mod_mult.
  - pose proof (Z_div_mod_eq_full (x - j) N) as E. rewrite H in E.
    symmetry. apply (Z.mod_unique x N ((x - j) / N) j); lia.
Qed.

(** The ranks below [T] with residue [j] are [j, j+N, j+2N, ...]. *)
Lemma filter_mod_range (N j T : Z) :
  0 < N -> 0 <= j < N ->
  filter (fun x => x mod N =? j) (Py.range T) = Py.range3 j T N.
Proof.
  intros HN Hj. apply sorted_ext.
  - apply sorted_filter, sorted_range2.
  - now apply sorted_range3.
  - intros x. rewrite filter_In, in_range, in_range3, Z.eqb_eq by assumption.
    rewrite (mod_eq_iff N j x HN Hj). split.
    + intros [Hx Hmod]. split; [| assumption].
      apply (mod_eq_iff N j x HN Hj) in Hmod.
      pose proof (Z.mod_le x N ltac:(lia) HN). lia.
    + intros [Hx Hmod]. split; [lia | assumption].
Qed.

Lemma length_range3 (a b step : Z) :
  length (Py.range3 a b step) = Z.to_nat ((b - a + step - 1) / step).
Proof. unfold Py.range3. now rewrite length_map, length_seq. Qed.

Lemma same_pool_remainder (P M r T : Z) :
  1 <= M -> 0 <= r < P -> 0 <= T <= P ->
  filter (same_pool P M true r) (Py.range T) =
  Py.range3 (r mod spec_pool_count P M) T (spec_pool_count P M).
Proof.
  intros HM Hr HT.
  pose proof (spec_pool_count_pos P M ltac:(lia) HM) as HN.
  rewrite <- filter_mod_range
    by (try apply Z.mod_pos_bound; lia).
  apply filter_ext_in. intros x Hx. apply in_range in Hx.
  unfold same_pool. rewrite !split_color_pool_id, !pool_id_of_ok by lia.
  reflexivity.
Qed.

Lemma remainder_rank (P M r : Z) :
  1 <= M -> 0 <= r < P ->
  Z.of_nat (length (filter (same_pool P M true r) (Py.range r))) =
  r / spec_pool_count P M.
Proof.
  intros HM Hr.
  pose proof (spec_pool_count_pos P M ltac:(lia) HM) as HN.
  rewrite same_pool_remainder, length_range3 by lia.
  set (N := spec_pool_count P M) in *.
  pose proof (Z_div_mod_eq_full r N) as E.
  pose proof (Z.mod_pos_bound r N ltac:(lia)) as Hb.
  assert (Hq : 0 <= r / N) by (apply Z.div_pos; lia).
  assert ((r - r mod N + N - 1) / N = r / N) by (apply div_eq_iff; lia).
  lia.
Qed.

Lemma spec_pool_count_le (P M : Z) :
  1 <= P -> 1 <= M ->
  spec_pool_count P M <= P /\ spec_clamp P M * spec_pool_count P M <= P.
Proof.
  intros HP HM. unfold spec_pool_count.
  pose proof (spec_clamp_bounds P M HP HM) as Hm.
  pose proof (Z.mul_div_le P (spec_clamp P M) ltac:(lia)).
  split; [| lia].
  apply Z.div_le_upper_bound; nia.
Qed.

Lemma remainder_topology_full (P M r : Z) :
  1 <= M -> 0 <= r < P ->
  exists self' s,
    pool_class.set_pool (fresh_pool P r) M true = Py.Ok self' /\
    pool_class.n self' = Some (spec_pool_count P M) /\
    pool_class.i self' = Some (r mod spec_pool_count P M) /\
    pool_class.comm self' =
      Some (Some (MPI.Intracomm
                    (Py.range3 (r mod spec_pool_count P M) P (spec_pool_count P M)))) /\
    pool_class.rank self' = Some (r / spec_pool_count P M) /\
    pool_class.size self' = Some s /\
    (if P <? M then P else M) <= s /\
    pool_class.roots self' = Some (Py.range (spec_pool_count P M)).
Proof.
  intros HM Hr.
  pose proof (spec_pool_count_pos P M ltac:(lia) HM) as HN.
  destruct (spec_pool_count_le P M ltac:(lia) HM) as [HNP HmN].
  destruct (set_pool_mpi P M r true HM Hr)
    as (self' & j & Hrun & Hid & _ & Hn & Hi & _ & _ & Hcomm & Hsize & Hrank & Hroots & _).
  rewrite pool_id_of_ok in Hid by lia. injection Hid as <-.
  unfold spec_pool_id_remainder in Hi.
  rewrite same_pool_remainder in Hcomm, Hsize by lia.
  rewrite remainder_rank in Hrank by lia.
  exists self'. eexists.
  split; [exact Hrun |]. split; [exact Hn |]. split; [exact Hi |].
  split; [exact Hcomm |]. split; [exact Hrank |]. split; [exact Hsize |].
  split.
  - rewrite length_range3. fold (spec_clamp P M).
    set (N := spec_pool_count P M) in *.
    pose proof (Z.mod_pos_bound r N ltac:(lia)) as Hb.
    assert (spec_clamp P M <= (P - r mod N + N - 1) / N)
      by (apply Z.div_le_lower_bound; nia).
    lia.
  - rewrite Hroots. f_equal.
    apply filter_range_interval; try lia.
    intros x Hx. rewrite remainder_rank by lia.
    rewrite Z.eqb_eq, Z.div_small_iff by lia. lia.
Qed.

(** X3: Under the remainder policy, in a world of [P] processes and for every
    [M >= 1]: the process of rank [r] is in pool [r mod N] with the ranks
    [r mod N, r mod N + N, ...] below [P], at position [floor(r / N)]; the
    pool has at least [min(M, P)] members; and [roots] is [[0, ..., N-1]]. *)
Theorem remainder_topology (P M r : Z) :
  1 <= M -> 0 <= r < P ->
  exists self' s,
    pool_class.set_pool (fresh_pool P r) M true = Py.Ok self' /\
    pool_class.n self' = Some (spec_pool_count P M) /\
    pool_class.i self' = Some (r mod spec_pool_count P M) /\
    pool_class.comm self' =
      Some (Some (MPI.Intracomm
                    (Py.range3 (r mod spec_pool_count P M) P (spec_pool_count P M)))) /\
    pool_class.rank self' = Some (r / spec_pool_count P M) /\
    pool_class.size self' = Some s /\
    (if P <? M then P else M) <= s /\
    pool_class.roots self' = Some (Py.range (spec_pool_count P M)).
Proof. exact (remainder_topology_full P M r). Qed.

Lemma remainder_topology_witness :
  exists self' s,
    pool_class.set_pool (fresh_pool 10 7) 3 true = Py.Ok self' /\
    pool_class.n self' = Some (spec_pool_count 10 3) /\
    pool_class.i self' = Some (7 mod spec_pool_count 10 3) /\
    pool_class.comm self' =
      Some (Some (MPI.Intracomm
                    (Py.range3 (7 mod spec_pool_count 10 3) 10 (spec_pool_count 10 3)))) /\
    pool_class.rank self' = Some (7 / spec_pool_count 10 3) /\
    pool_class.size self' = Some s /\
    (if 10 <? 3 then 10 else 3) <= s /\
    pool_class.roots self' = Some (Py.range (spec_pool_count 10 3)).
Proof.
  apply (remainder_topology 10 3 7); lia.
Defined.

(** ** The contiguous policy where it is sound *)

Lemma pool_start_mono (M R a b : Z) :
  1 <= M -> a < b -> pool_start M R a < pool_start M R b.
Proof. intros HM Hab. unfold pool_start. nia. Qed.

Lemma pool_start_total (P M : Z) :
  1 <= M -> P mod M <= P / M ->
  pool_start M (P mod M) 0 = 0 /\ pool_start M (P mod M) (P / M) = P.
Proof.
  intros HM HRN. unfold pool_start.
  pose proof (Z.mod_pos_bound P M ltac:(lia)).
  pose proof (Z_div_mod_eq_full P M). split; lia.
Qed.

Lemma filter_below_range2 (a b r : Z) :
  a <= r <= b -> filter (fun y => y <? r) (Py.range2 a b) = Py.range2 a r.
Proof.
  intros Hr. rewrite (range2_app a r b), filter_app by lia.
  rewrite filter_all, filter_none.
  - apply app_nil_r.
  - intros y Hy. apply in_range2 in Hy. apply Z.ltb_ge. lia.
  - intros y Hy. apply in_range2 in Hy. apply Z.ltb_lt. lia.
Qed.

(** The block, the pool id and the position inside the block of a rank. *)
Lemma contiguous_position (P M r : Z) :
  1 <= M -> M <= P -> P mod M <= P / M -> 0 <= r < P ->
  exists j,
    pool_id_of P M false r = Some j /\ 0 <= j < P / M /\
    pool_start M (P mod M) j <= r < pool_start M (P mod M) (j + 1) /\
    filter (same_pool P M false r) (Py.range P) =
      Py.range2 (pool_start M (P mod M) j) (pool_start M (P mod M) (j + 1)) /\
    Z.of_nat (length (filter (same_pool P M false r) (Py.range r))) =
      r - pool_start M (P mod M) j.
Proof.
  intros HM HMP HRN Hr.
  destruct (contiguous_pool_id_in_range P M r HM HMP HRN Hr) as (j & Hid & Hj).
  pose proof (same_pool_members P M r j false HM Hr Hid) as Hmem.
  rewrite contiguous_members in Hmem by lia.
  fold (pool_start M (P mod M) j) in Hmem.
  fold (pool_start M (P mod M) (j + 1)) in Hmem.
  assert (Hin : pool_start M (P mod M) j <= r < pool_start M (P mod M) (j + 1)).
  { apply in_range2. rewrite <- Hmem. apply filter_In.
    split; [now apply in_range |]. now apply same_pool_iff. }
  exists j. repeat split; try assumption; try lia.
  rewrite <- (filter_below (same_pool P M false r) P r) by lia.
  rewrite Hmem, filter_below_range2, length_range2 by lia. lia.
Qed.

Lemma contiguous_topology_full (P M r : Z) :
  1 <= M -> M <= P -> P mod M <= P / M -> 0 <= r < P ->
  exists self' j,
    pool_class.set_pool (fresh_pool P r) M false = Py.Ok self' /\
    pool_class.n self' = Some (P / M) /\
    pool_class.i self' = Some j /\ 0 <= j < P / M /\
    pool_start M (P mod M) j <= r < pool_start M (P mod M) (j + 1) /\
    pool_class.comm self' =
      Some (Some (MPI.Intracomm
                    (Py.range2 (pool_start M (P mod M) j)
                               (pool_start M (P mod M) (j + 1))))) /\
    pool_class.rank self' = Some (r - pool_start M (P mod M) j) /\
    pool_class.size self' = Some (M + (if j <? P mod M then 1 else 0)) /\
    pool_class.roots self' = Some (map (pool_start M (P mod M)) (Py.range (P / M))).
Proof.
  intros HM HMP HRN Hr.
  pose proof (Z.mod_pos_bound P M ltac:(lia)) as HR.
  destruct (pool_start_total P M HM HRN) as [_ Htot].
  destruct (set_pool_mpi P M r false HM Hr)
    as (self' & j & Hrun & Hid & _ & Hn & Hi & _ & _ & Hcomm & Hsize & Hrank & Hroots & _).
  destruct (contiguous_position P M r HM HMP HRN Hr)
    as (j' & Hid' & Hj & Hin & Hmem & Hpos).
  assert (j' = j) by congruence. subst j'.
  rewrite Hmem in Hcomm, Hsize. rewrite Hpos in Hrank.
  assert (Hclamp : spec_clamp P M = M)
    by (unfold spec_clamp; destruct (Z.ltb_spec P M); lia).
  unfold spec_pool_count in Hn. rewrite Hclamp in Hn.
  exists self', j.
  split; [exact Hrun |]. split; [exact Hn |]. split; [exact Hi |].
  split; [exact Hj |]. split; [exact Hin |]. split; [exact Hcomm |].
  split; [exact Hrank |]. split.
  - rewrite Hsize, length_range2. f_equal. unfold pool_start.
    destruct (Z.ltb_spec j (P mod M)); lia.
  - rewrite Hroots. f_equal. apply sorted_ext.
    + apply sorted_filter, sorted_range2.
    + unfold Py.range, Py.range2. rewrite map_map. apply sorted_map_seq.
      intros a b Hab. apply pool_start_mono; lia.
    + intros x. rewrite filter_In, in_range, in_map_iff. split.
      * intros [Hx Hzero].
        destruct (contiguous_position P M x HM HMP HRN Hx)
          as (jx & _ & Hjx & Hinx & _ & Hposx).
        rewrite Hposx in Hzero. apply Z.eqb_eq in Hzero.
        exists jx. split; [lia | now apply in_range].
      * intros (jx & <- & Hjx). apply in_range in Hjx.
        assert (Hx : 0 <= pool_start M (P mod M) jx < P).
        { split; [unfold pool_start; nia |].
          pose proof (pool_start_mono M (P mod M) jx (P / M) HM ltac:(lia)).
          lia. }
        split; [exact Hx |].
        destruct (contiguous_position P M _ HM HMP HRN Hx)
          as (jy & _ & Hjy & Hiny & _ & Hposy).
        rewrite Hposy. apply Z.eqb_eq.
        destruct (Z.lt_trichotomy jy jx) as [Hlt | [-> | Hgt]]; [| lia |].
        -- destruct (Z.eq_dec (jy + 1) jx) as [E | E]; [subst; lia |].
           pose proof (pool_start_mono M (P mod M) (jy + 1) jx HM ltac:(lia)). lia.
        -- pose proof (pool_start_mono M (P mod M) jx jy HM ltac:(lia)). lia.
Qed.

(** X4: Under the contiguous policy, for [1 <= M <= P] and as long as
    [R = P mod M] is at most [N = floor(P / M)]: pool [j] is the block of
    ranks that starts at [j*M + min(j, R)], a process sits in its pool at its
    distance from the start of the block, the pool has [M+1] members when
    [j < R] and [M] otherwise, and [roots] lists the block starts of the
    pools 0..N-1 in this order. *)
Theorem contiguous_topology (P M r : Z) :
  1 <= M -> M <= P -> P mod M <= P / M -> 0 <= r < P ->
  exists self' j,
    pool_class.set_pool (fresh_pool P r) M false = Py.Ok self' /\
    pool_class.n self' = Some (P / M) /\
    pool_class.i self' = Some j /\ 0 <= j < P / M /\
    pool_start M (P mod M) j <= r < pool_start M (P mod M) (j + 1) /\
    pool_class.comm self' =
      Some (Some (MPI.Intracomm
                    (Py.range2 (pool_start M (P mod M) j)
                               (pool_start M (P mod M) (j + 1))))) /\
    pool_class.rank self' = Some (r - pool_start M (P mod M) j) /\
    pool_class.size self' = Some (M + (if j <? P mod M then 1 else 0)) /\
    pool_class.roots self' = Some (map (pool_start M (P mod M)) (Py.range (P / M))).
Proof. exact (contiguous_topology_full P M r). Qed.

Lemma contiguous_topology_witness :
  exists self' j,
    pool_class.set_pool (fresh_pool 10 5) 3 false = Py.Ok self' /\
    pool_class.n self' = Some (10 / 3) /\
    pool_class.i self' = Some j /\ 0 <= j < 10 / 3 /\
    pool_start 3 (10 mod 3) j <= 5 < pool_start 3 (10 mod 3) (j + 1) /\
    pool_class.comm self' =
      Some (Some (MPI.Intracomm
                    (Py.range2 (pool_start 3 (10 mod 3) j)
                               (pool_start 3 (10 mod 3) (j + 1))))) /\
    pool_class.rank self' = Some (5 - pool_start 3 (10 mod 3) j) /\
    pool_class.size self' = Some (3 + (if j <? 10 mod 3 then 1 else 0)) /\
    pool_class.roots self' = Some (map (pool_start 3 (10 mod 3)) (Py.range (10 / 3))).
Proof.
  apply (contiguous_topology 10 3 5); [lia | lia | | lia].
  vm_compute. discriminate.
Defined.

(** X5: Under the contiguous policy with [1 <= M <= P], every rank receives a
    pool id below the pool count exactly when [P mod M <= floor(P / M)];
    otherwise [set_pool] leaves on the last rank a pool id [i] that is not
    below the pool count [n]. *)
Theorem contiguous_ids_in_range_iff (P M : Z) :
  1 <= M -> M <= P ->
  ((forall r, 0 <= r < P ->
      exists j, pool_id_of P M false r = Some j /\ 0 <= j < P / M) <->
   P mod M <= P / M) /\
  (P / M < P mod M ->
   exists self' j,
     pool_class.set_pool (fresh_pool P (P - 1)) M false = Py.Ok self' /\
     pool_class.n self' = Some (P / M) /\
     pool_class.i self' = Some j /\ P / M <= j).
Proof.
  intros HM HMP. split; [| intros Hover].
  2:{ destruct (contiguous_last_rank_overflow P M HM HMP Hover)
        as (j & Hid & Hj).
      destruct (set_pool_mpi P M (P - 1) false HM ltac:(lia))
        as (self' & j' & Hrun & Hid' & _ & Hn & Hi & _).
      assert (j' = j) by congruence. subst j'.
      assert (Hclamp : spec_clamp P M = M)
        by (unfold spec_clamp; destruct (Z.ltb_spec P M); lia).
      unfold spec_pool_count in Hn. rewrite Hclamp in Hn.
      exists self', j. repeat split; assumption. }
  split.
  - intros Hall. destruct (Z_le_gt_dec (P mod M) (P / M)) as [Hle | Hgt];
      [assumption |].
    destruct (contiguous_last_rank_overflow P M HM HMP ltac:(lia))
      as (j & Hj & Hover).
    destruct (Hall (P - 1) ltac:(lia)) as (j' & Hj' & Hin).
    assert (j' = j) by congruence. lia.
  - intros HRN r Hr. now apply contiguous_pool_id_in_range.
Qed.

Lemma contiguous_ids_in_range_iff_witness :
  ((forall r, 0 <= r < 7 ->
      exists j, pool_id_of 7 4 false r = Some j /\ 0 <= j < 7 / 4) <->
   7 mod 4 <= 7 / 4) /\
  (7 / 4 < 7 mod 4 ->
   exists self' j,
     pool_class.set_pool (fresh_pool 7 (7 - 1)) 4 false = Py.Ok self' /\
     pool_class.n self' = Some (7 / 4) /\
     pool_class.i self' = Some j /\ 7 / 4 <= j).
Proof.
  apply (contiguous_ids_in_range_iff 7 4); lia.
Defined.

(** ** Every rank in one pool *)

Lemma length_flat_map_sum {A B : Type} (f : A -> list B) (l : list A) :
  Z.of_nat (length (flat_map f l)) =
  fold_right Z.add 0 (map (fun x => Z.of_nat (length (f x))) l).
Proof.
  induction l as [| x l IH]; simpl; [reflexivity |].
  rewrite length_app, Nat2Z.inj_add, IH. reflexivity.
Qed.

(** X6: Under the remainder policy always, and under the contiguous policy for
    [M <= P] and [P mod M <= floor(P / M)], the member lists of the pools
    0..N-1 together hold every rank of the world once, and the pool sizes
    add up to [P]. *)
Theorem pools_partition_ranks (P M : Z) (remainder_mode : bool) :
  1 <= M -> 1 <= P ->
  (remainder_mode = false -> M <= P /\ P mod M <= P / M) ->
  Permutation
    (flat_map (pool_members P M remainder_mode) (Py.range (spec_pool_count P M)))
    (Py.range P) /\
  fold_right Z.add 0
    (map (pool_size P M remainder_mode) (Py.range (spec_pool_count P M))) = P.
Proof.
  intros HM HP Hsound.
  pose proof (spec_pool_count_pos P M HP HM) as HN.
  assert (Hids : forall r, 0 <= r < P ->
            exists j, pool_id_of P M remainder_mode r = Some j /\
                      0 <= j < spec_pool_count P M).
  { intros r Hr. destruct remainder_mode.
    - apply remainder_pool_id_in_range; lia.
    - destruct (Hsound eq_refl) as [HMP HRN].
      assert (Hclamp : spec_clamp P M = M)
        by (unfold spec_clamp; destruct (Z.ltb_spec P M); lia).
      unfold spec_pool_count. rewrite Hclamp.
      now apply contiguous_pool_id_in_range. }
  assert (Hperm :
            Permutation
              (flat_map (pool_members P M remainder_mode)
                        (Py.range (spec_pool_count P M)))
              (Py.range P)).
  { set (key := fun r => match pool_id_of P M remainder_mode r with
                         | Some j => j | None => -1 end).
    rewrite (flat_map_ext_on _ (fun j => filter (fun r => key r =? j) (Py.range P))).
    - rewrite <- (Z2Nat.id (spec_pool_count P M)) at 1 by lia.
      eapply Permutation_trans; [apply stripes_perm |].
      rewrite filter_all; [apply Permutation_refl |].
      intros r Hr. apply in_range in Hr.
      destruct (Hids r Hr) as (j & Hj & Hb). unfold key. rewrite Hj.
      rewrite Z2Nat.id by lia.
      destruct (Z.leb_spec 0 j), (Z.ltb_spec j (spec_pool_count P M));
        simpl; try reflexivity; lia.
    - intros j Hj. unfold pool_members. apply filter_ext_in.
      intros r Hr. apply in_range in Hr.
      destruct (Hids r Hr) as (j' & Hj' & _). unfold key. now rewrite Hj'. }
  split; [exact Hperm |].
  unfold pool_size.
  rewrite <- (length_flat_map_sum (pool_members P M remainder_mode)).
  rewrite (Permutation_length Hperm). unfold Py.range.
  rewrite length_range2. lia.
Qed.

Lemma pools_partition_ranks_witness :
  Permutation
    (flat_map (pool_members 10 3 true) (Py.range (spec_pool_count 10 3)))
    (Py.range 10) /\
  fold_right Z.add 0
    (map (pool_size 10 3 true) (Py.range (spec_pool_count 10 3))) = 10.
Proof.
  apply (pools_partition_ranks 10 3 true); [lia | lia | discriminate].
Defined.

(** ** Without MPI, and after a skipped [set_pool] *)

(** X7: Without MPI ([para_class()] of size 1), [set_pool] with any [M >= 1] and
    either policy clamps the pool size to 1 and builds the single pool of
    the single process, which is its own root. *)
Theorem set_pool_serial (M : Z) (remainder_mode : bool) :
  1 <= M ->
  exists self',
    pool_class.set_pool serial_pool M remainder_mode = Py.Ok self' /\
    pool_class.npp self' = Some 1 /\ pool_class.n self' = Some 1 /\
    pool_class.i self' = Some 0 /\ pool_class.comm self' = Some None /\
    pool_class.size self' = Some 1 /\ pool_class.rank self' = Some 0 /\
    pool_class.roots self' = Some [0] /\ pool_class.rootcomm self' = Some None /\
    pool_class.up self' = true /\
    pool_class.isroot self' = Py.Ok true.
Proof.
  intros HM. unfold pool_class.set_pool, serial_pool. simpl.
  destruct (Z.ltb_spec 0 M); [| lia].
  rewrite topology_ok by lia.
  assert (Hclamp : spec_clamp 1 M = 1)
    by (unfold spec_clamp; destruct (Z.ltb_spec 1 M); lia).
  unfold spec_pool_count. rewrite Hclamp. simpl.
  eexists. split; [reflexivity |].
  destruct remainder_mode; repeat split.
Qed.

Lemma set_pool_serial_witness :
  exists self',
    pool_class.set_pool serial_pool 4 false = Py.Ok self' /\
    pool_class.npp self' = Some 1 /\ pool_class.n self' = Some 1 /\
    pool_class.i self' = Some 0 /\ pool_class.comm self' = Some None /\
    pool_class.size self' = Some 1 /\ pool_class.rank self' = Some 0 /\
    pool_class.roots self' = Some [0] /\ pool_class.rootcomm self' = Some None /\
    pool_class.up self' = true /\
    pool_class.isroot self' = Py.Ok true.
Proof.
  apply (set_pool_serial 4 false). lia.
Defined.

Lemma for_skip {A S : Type} (l : list A) (st : S) :
  Py.for_ l (fun _ st' => Py.Ok st') st = Py.Ok st.
Proof. induction l as [| x l IH]; simpl; [reflexivity | exact IH]. Qed.

(** X8: After a [set_pool] skipped by its guard the pool has no topology:
    [isroot] and [set_sk_list] raise [AttributeError]; [set_sk_list_v1]
    raises it as soon as its loops run once (nspin >= 1 and nk_use >= 1) and
    otherwise completes with empty lists. *)
Theorem methods_after_skipped_set_pool (p : para_class.t) (M : Z)
        (remainder_mode : bool) (nspin nk nk_use : Z) :
  M <= 0 ->
  exists self',
    pool_class.set_pool (pool_class.__init__ p) M remainder_mode = Py.Ok self' /\
    pool_class.isroot self' = Py.Raise (Py.AttributeError "roots") /\
    pool_class.set_sk_list self' nspin nk nk_use =
      Py.Raise (Py.AttributeError "n") /\
    (1 <= nspin -> 1 <= nk_use ->
     pool_class.set_sk_list_v1 self' nspin nk nk_use =
       Py.Raise (Py.AttributeError "n")) /\
    (nspin <= 0 \/ nk_use <= 0 ->
     exists self'',
       pool_class.set_sk_list_v1 self' nspin nk nk_use = Py.Ok self'' /\
       pool_class.sk_list self'' = Some [] /\
       pool_class.sk_offset self'' = Some [] /\
       pool_class.nsk self'' = Some 0).
Proof.
  intros HM. exists (pool_class.__init__ p).
  split; [now apply set_pool_unguarded |].
  split; [reflexivity |]. split; [reflexivity |]. split.
  - intros Hs Hk. unfold pool_class.set_sk_list_v1, Py.range.
    rewrite (range2_cons 0 nspin), (range2_cons 0 nk_use) by lia.
    reflexivity.
  - intros [Hs | Hk]; unfold pool_class.set_sk_list_v1, Py.range.
    + rewrite (range2_empty 0 nspin) by lia. simpl.
      eexists. repeat split.
    + rewrite (range2_empty 0 nk_use) by lia. simpl.
      rewrite for_skip. simpl. eexists. repeat split.
Qed.

Lemma methods_after_skipped_set_pool_witness :
  exists self',
    pool_class.set_pool (pool_class.__init__ (para_class.init_mpi 4 1)) 0 false
      = Py.Ok self' /\
    pool_class.isroot self' = Py.Raise (Py.AttributeError "roots") /\
    pool_class.set_sk_list self' 2 5 5 = Py.Raise (Py.AttributeError "n") /\
    (1 <= 2 -> 1 <= 5 ->
     pool_class.set_sk_list_v1 self' 2 5 5 = Py.Raise (Py.AttributeError "n")) /\
    (2 <= 0 \/ 5 <= 0 ->
     exists self'',
       pool_class.set_sk_list_v1 self' 2 5 5 = Py.Ok self'' /\
       pool_class.sk_list self'' = Some [] /\
       pool_class.sk_offset self'' = Some [] /\
       pool_class.nsk self'' = Some 0).
Proof.
  apply (methods_after_skipped_set_pool (para_class.init_mpi 4 1) 0 false 2 5 5).
  lia.
Defined.

(** * Further properties of the work assignment *)

Lemma pool_offsets_map (policy : sk_policy) (pools : Z -> pool_class.t)
      (N nspin nk nk_use j : Z) :
  pool_class.n (pools j) = Some N -> pool_class.i (pools j) = Some j ->
  1 <= N -> 0 <= nk_use ->
  pool_offsets policy pools nspin nk nk_use j =
  map (global_offset nk) (pool_lists policy pools nspin nk nk_use j).
Proof.
  intros Hn Hi HN Hk. unfold pool_offsets, pool_lists. destruct policy; simpl.
  - now rewrite (set_sk_list_v1_ok (pools j) N j nspin nk nk_use Hn Hi) by lia.
  - now rewrite (set_sk_list_ok (pools j) N j nspin nk nk_use Hn Hi) by lia.
Qed.

Lemma map_flat_map_comm {A B C : Type} (g : B -> C) (f : A -> list B)
      (l : list A) :
  map g (flat_map f l) = flat_map (fun x => map g (f x)) l.
Proof.
  induction l as [| x l IH]; simpl; [reflexivity |].
  now rewrite map_app, IH.
Qed.

(** The global offset tells the tuples of the work space apart as long as
    the k-indices stay below the total k count. *)
Lemma global_offset_injective (nk nk_use : Z) (a b : Z * Z) :
  nk_use <= nk -> 0 <= snd a < nk_use -> 0 <= snd b < nk_use ->
  global_offset nk a = global_offset nk b -> a = b.
Proof.
  destruct a as [s k], b as [s' k']. unfold global_offset. simpl.
  intros Hnk Hk Hk' E.
  assert (s = s') by nia. subst s'.
  f_equal. lia.
Qed.

(** X9: For [0 <= nk_use <= nk] and either policy, the offsets held by the pools
    0..N-1 are pairwise different and lie in [[0, nspin * nk)]; when
    [nk < nk_use] two tuples can share an offset. *)
Theorem offsets_distinct (policy : sk_policy) (pools : Z -> pool_class.t)
        (N nspin nk nk_use : Z) :
  0 <= nk_use -> nk_use <= nk -> 1 <= N ->
  (forall j, 0 <= j < N ->
     pool_class.n (pools j) = Some N /\ pool_class.i (pools j) = Some j) ->
  NoDup (flat_map (pool_offsets policy pools nspin nk nk_use) (Py.range N)) /\
  (forall o,
     In o (flat_map (pool_offsets policy pools nspin nk nk_use) (Py.range N)) ->
     0 <= o < nspin * nk) /\
  ~ NoDup (sk_offset_of (pool_class.set_sk_list (pool_of 1 0) 2 1 2)).
Proof.
  intros Hk Hnk HN Hpools.
  assert (Hperm :
            Permutation
              (flat_map (pool_offsets policy pools nspin nk nk_use) (Py.range N))
              (map (global_offset nk) (work_space nspin nk_use))).
  { rewrite (flat_map_ext_on _
               (fun j => map (global_offset nk)
                             (pool_lists policy pools nspin nk nk_use j))).
    - rewrite <- map_flat_map_comm. apply Permutation_map.
      now apply pool_lists_perm.
    - intros j Hj. apply in_range in Hj. destruct (Hpools j Hj) as [Hn Hi].
      now apply (pool_offsets_map policy pools N). }
  split; [| split].
  - apply (Permutation_NoDup (Permutation_sym Hperm)).
    apply NoDup_map_NoDup_ForallPairs; [| apply NoDup_work_space].
    intros [s k] [s' k'] Hin Hin' E.
    apply in_work_space in Hin. apply in_work_space in Hin'.
    apply (global_offset_injective nk nk_use); simpl; first [lia | exact E].
  - intros o Ho. apply (Permutation_in _ Hperm) in Ho.
    apply in_map_iff in Ho. destruct Ho as ([s k] & <- & Hin).
    apply in_work_space in Hin. unfold global_offset. simpl. nia.
  - vm_compute. intros H.
    inversion H as [| ? ? _ H1]; subst.
    inversion H1 as [| ? ? Hnot _]; subst.
    apply Hnot. now left.
Qed.

Lemma offsets_distinct_witness :
  NoDup (flat_map (pool_offsets striped (pool_of 3) 2 5 5) (Py.range 3)) /\
  (forall o,
     In o (flat_map (pool_offsets striped (pool_of 3) 2 5 5) (Py.range 3)) ->
     0 <= o < 2 * 5) /\
  ~ NoDup (sk_offset_of (pool_class.set_sk_list (pool_of 1 0) 2 1 2)).
Proof.
  apply (offsets_distinct striped (pool_of 3) 3 2 5 5);
    [lia | lia | lia | intros j _; split; reflexivity].
Defined.

Lemma length_k_major (nspin : Z) (ks : list Z) :
  Z.of_nat (length (k_major nspin ks)) =
  Z.of_nat (length ks) * Z.max 0 nspin.
Proof.
  unfold k_major. induction ks as [| k ks IH]; simpl length; [reflexivity |].
  rewrite length_app, length_map, Nat2Z.inj_add, IH.
  unfold Py.range. rewrite length_range2. lia.
Qed.

(** X10: Under the block policy the pool of id [j] holds [nspin] tuples for each
    k-index of its block: [nsk = nspin * (floor(nk_use / N) + 1)] for the
    first [nk_use mod N] pools and [nspin * floor(nk_use / N)] for the
    others, so two pools differ by at most [nspin] tuples. *)
Theorem block_nsk (self : pool_class.t) (N j nspin nk nk_use : Z) :
  pool_class.n self = Some N -> pool_class.i self = Some j ->
  1 <= N -> 0 <= j < N -> 0 <= nk_use -> 0 <= nspin ->
  exists self',
    pool_class.set_sk_list self nspin nk nk_use = Py.Ok self' /\
    pool_class.nsk self' =
      Some (nspin * (nk_use / N + (if j <? nk_use mod N then 1 else 0))).
Proof.
  intros Hn Hi HN Hj Hk Hs.
  rewrite (set_sk_list_ok self N j nspin nk nk_use Hn Hi) by lia.
  eexists. split; [reflexivity |]. simpl. f_equal.
  rewrite length_k_major, length_range2, block_start_step.
  unfold spec_block_size.
  pose proof (Z.div_pos nk_use N Hk ltac:(lia)).
  destruct (Z.ltb_spec j (nk_use mod N)); nia.
Qed.

Lemma block_nsk_witness :
  exists self',
    pool_class.set_sk_list (pool_of 3 1) 2 5 5 = Py.Ok self' /\
    pool_class.nsk self' = Some (2 * (5 / 3 + (if 1 <? 5 mod 3 then 1 else 0))).
Proof.
  apply (block_nsk (pool_of 3 1) 3 1 2 5 5);
    [reflexivity | reflexivity | lia | lia | lia | lia].
Defined.

Lemma map_shift_range (a b : Z) :
  map (fun k => a + k) (Py.range b) = Py.range2 a (a + b).
Proof.
  unfold Py.range, Py.range2. rewrite map_map.
  replace (Z.to_nat (a + b - a)) with (Z.to_nat (b - 0)) by lia.
  apply map_ext. intros n. lia.
Qed.

(** When all k-points are used, the offsets of the work space, in loop
    order, are 0, 1, ..., nspin * nk - 1. *)
Lemma offsets_enumerate (nspin nk : Z) :
  0 <= nk ->
  map (global_offset nk) (work_space nspin nk) = Py.range (nspin * nk).
Proof.
  intros Hnk. destruct (Z_lt_le_dec nspin 0) as [Hneg | Hpos].
  - unfold work_space, Py.range. rewrite (range2_empty 0 nspin) by lia.
    rewrite (range2_empty 0 (nspin * nk)) by nia. reflexivity.
  - rewrite <- (Z2Nat.id nspin Hpos). generalize (Z.to_nat nspin) as m.
    clear nspin Hpos. induction m as [| m IH].
    + reflexivity.
    + rewrite Nat2Z.inj_succ. unfold Z.succ.
      unfold work_space, Py.range in *.
      rewrite (range2_snoc 0 (Z.of_nat m)) by lia.
      rewrite flat_map_app, map_app, IH. simpl. rewrite app_nil_r.
      rewrite map_map. unfold global_offset. simpl.
      fold (Py.range nk). rewrite (map_shift_range (Z.of_nat m * nk) nk).
      rewrite (range2_app 0 (Z.of_nat m * nk) ((Z.of_nat m + 1) * nk)) by nia.
      f_equal. f_equal. lia.
Qed.

(** X11: Under the striped policy with all k-points in use ([nk_use = nk]), the
    pool of id [j] among [N] receives the offsets [j, j+N, j+2N, ...] below
    [nspin * nk], so its tuple count is [floor(T / N)] or one more, with
    [T = nspin * nk] the size of the work space. *)
Theorem striped_offsets_stride (self : pool_class.t) (N j nspin nk : Z) :
  pool_class.n self = Some N -> pool_class.i self = Some j ->
  1 <= N -> 0 <= j < N -> 0 <= nspin -> 0 <= nk ->
  exists self' c,
    pool_class.set_sk_list_v1 self nspin nk nk = Py.Ok self' /\
    pool_class.sk_offset self' = Some (Py.range3 j (nspin * nk) N) /\
    pool_class.nsk self' = Some c /\
    nspin * nk / N <= c <= nspin * nk / N + 1.
Proof.
  intros Hn Hi HN Hj Hs Hnk.
  rewrite (set_sk_list_v1_ok self N j nspin nk nk Hn Hi) by lia.
  assert (E : map (global_offset nk)
                (filter (owned_by nk N j) (work_space nspin nk)) =
              Py.range3 j (nspin * nk) N).
  { rewrite <- filter_mod_range by lia.
    rewrite <- offsets_enumerate by lia.
    symmetry. apply (filter_map_swap (fun o => o mod N =? j)). }
  do 2 eexists. split; [reflexivity |]. simpl.
  split; [now rewrite E |]. split; [reflexivity |].
  rewrite <- (length_map (global_offset nk)), E, length_range3.
  set (T := nspin * nk). assert (HT : 0 <= T) by (unfold T; nia).
  assert (Hlo : T / N <= (T - j + N - 1) / N)
    by (apply Z.div_le_mono; lia).
  assert (Hhi : (T - j + N - 1) / N <= T / N + 1).
  { replace (T / N + 1) with ((T + 1 * N) / N)
      by (rewrite Z.div_add by lia; reflexivity).
    apply Z.div_le_mono; lia. }
  assert (0 <= T / N) by (apply Z.div_pos; lia).
  lia.
Qed.

Lemma striped_offsets_stride_witness :
  exists self' c,
    pool_class.set_sk_list_v1 (pool_of 3 1) 2 5 5 = Py.Ok self' /\
    pool_class.sk_offset self' = Some (Py.range3 1 (2 * 5) 3) /\
    pool_class.nsk self' = Some c /\
    2 * 5 / 3 <= c <= 2 * 5 / 3 + 1.
Proof.
  apply (striped_offsets_stride (pool_of 3 1) 3 1 2 5);
    [reflexivity | reflexivity | lia | lia | lia | lia].
Defined.

(** * The distribution of the frequencies in [rixs_f1] *)

(** X12: The index lists [range(rank, nener_in + 1, size)] of the processes
    0..size-1 share out the indices 0..nener_in: index [w] goes to the
    process [w mod size] and to no other, and together the lists hold every
    index once. *)
Theorem iw_local_partition (size nener_in : Z) :
  1 <= size ->
  (forall rank w,
     0 <= rank < size ->
     (In w (rixs.iw_local rank size nener_in) <->
      0 <= w <= nener_in /\ w mod size = rank)) /\
  Permutation
    (flat_map (fun rank => rixs.iw_local rank size nener_in) (Py.range size))
    (Py.range (nener_in + 1)).
Proof.
  intros Hsize.
  assert (Hstripe : forall rank, 0 <= rank < size ->
            rixs.iw_local rank size nener_in =
            filter (fun w => w mod size =? rank) (Py.range (nener_in + 1))).
  { intros rank Hrank. unfold rixs.iw_local.
    now rewrite filter_mod_range by lia. }
  split.
  - intros rank w Hrank. rewrite (Hstripe rank Hrank).
    rewrite filter_In, in_range, Z.eqb_eq. lia.
  - rewrite (flat_map_ext_on _
               (fun rank => filter (fun w => w mod size =? rank)
                                   (Py.range (nener_in + 1)))).
    + pose proof (stripes_perm (fun w => w mod size)
                    (Py.range (nener_in + 1)) (Z.to_nat size)) as Hperm.
      rewrite Z2Nat.id in Hperm by lia.
      eapply Permutation_trans; [exact Hperm |].
      rewrite filter_all; [apply Permutation_refl |].
      intros w _. pose proof (Z.mod_pos_bound w size ltac:(lia)).
      destruct (Z.leb_spec 0 (w mod size)), (Z.ltb_spec (w mod size) size);
        simpl; try reflexivity; lia.
    + intros rank Hrank. apply in_range in Hrank. now apply Hstripe.
Qed.

Lemma iw_local_partition_witness :
  (forall rank w,
     0 <= rank < 4 ->
     (In w (rixs.iw_local rank 4 100) <-> 0 <= w <= 100 /\ w mod 4 = rank)) /\
  Permutation
    (flat_map (fun rank => rixs.iw_local rank 4 100) (Py.range 4))
    (Py.range (100 + 1)).
Proof.
  apply (iw_local_partition 4 100). lia.
Defined.

(** * The reports: [sk_info] *)

Lemma pool_start_id (P M j : Z) :
  1 <= M -> M <= P -> P mod M <= P / M -> 0 <= j < P / M ->
  0 <= pool_start M (P mod M) j < P /\
  pool_id_of P M false (pool_start M (P mod M) j) = Some j.
Proof.
  intros HM HMP HRN Hj.
  pose proof (Z.mod_pos_bound P M ltac:(lia)) as HR.
  destruct (pool_start_total P M HM HRN) as [_ Htot].
  assert (Hx : 0 <= pool_start M (P mod M) j < P).
  { split; [unfold pool_start; nia |].
    pose proof (pool_start_mono M (P mod M) j (P / M) HM ltac:(lia)). lia. }
  split; [exact Hx |].
  destruct (contiguous_position P M _ HM HMP HRN Hx)
    as (jy & Hid & Hjy & Hin & _).
  rewrite Hid. f_equal.
  destruct (Z.lt_trichotomy jy j) as [Hlt | [E | Hgt]]; [| exact E |].
  - destruct (Z.eq_dec (jy + 1) j) as [E | E]; [subst; lia |].
    pose proof (pool_start_mono M (P mod M) (jy + 1) j HM ltac:(lia)). lia.
  - pose proof (pool_start_mono M (P mod M) j jy HM ltac:(lia)). lia.
Qed.

(** In a sound topology [roots] lists one root per pool, by pool id. *)
Lemma roots_by_pool_id (P M r : Z) (remainder_mode : bool) :
  1 <= M -> 0 <= r < P -> sound_topology P M remainder_mode ->
  exists self' root_of,
    pool_class.set_pool (fresh_pool P r) M remainder_mode = Py.Ok self' /\
    pool_class.roots self' =
      Some (map root_of (Py.range (spec_pool_count P M))) /\
    forall j, 0 <= j < spec_pool_count P M ->
      0 <= root_of j < P /\
      pool_id_of P M remainder_mode (root_of j) = Some j.
Proof.
  intros HM Hr Hsound. destruct remainder_mode.
  - destruct (remainder_topology_full P M r HM Hr)
      as (self' & s & Hrun & _ & _ & _ & _ & _ & _ & Hroots).
    exists self', (fun j => j). split; [exact Hrun |].
    split; [now rewrite map_id |].
    intros j Hj.
    destruct (spec_pool_count_le P M ltac:(lia) HM) as [HNP _].
    split; [lia |].
    rewrite pool_id_of_ok by lia. unfold spec_pool_id_remainder.
    now rewrite Z.mod_small by lia.
  - destruct Hsound as [Habs | [HMP HRN]]; [discriminate |].
    destruct (contiguous_topology_full P M r HM HMP HRN Hr)
      as (self' & j & Hrun & _ & _ & _ & _ & _ & _ & _ & Hroots).
    assert (Hclamp : spec_clamp P M = M)
      by (unfold spec_clamp; destruct (Z.ltb_spec P M); lia).
    unfold spec_pool_count. rewrite Hclamp.
    exists self', (pool_start M (P mod M)). split; [exact Hrun |].
    split; [exact Hroots |].
    intros j' Hj'. now apply pool_start_id.
Qed.

(** The tuple list of a pool depends on the pool count and the pool id
    only. *)
Lemma assign_by_id (policy : sk_policy) (self : pool_class.t)
      (N j nspin nk nk_use : Z) :
  pool_class.n self = Some N -> pool_class.i self = Some j ->
  1 <= N -> 0 <= nk_use ->
  exists self',
    assign policy self nspin nk nk_use = Py.Ok self' /\
    pool_class.sk_list self' =
      Some (pool_lists policy (pool_of N) nspin nk nk_use j) /\
    pool_class.para self' = pool_class.para self /\
    pool_class.roots self' = pool_class.roots self /\
    pool_class.rootcomm self' = pool_class.rootcomm self.
Proof.
  intros Hn Hi HN Hk. unfold pool_lists. destruct policy; simpl.
  - rewrite (set_sk_list_v1_ok self N j nspin nk nk_use Hn Hi) by lia.
    rewrite (set_sk_list_v1_ok (pool_of N j) N j nspin nk nk_use) by (reflexivity || lia).
    eexists. split; [reflexivity |]. repeat split.
  - rewrite (set_sk_list_ok self N j nspin nk nk_use Hn Hi) by lia.
    rewrite (set_sk_list_ok (pool_of N j) N j nspin nk nk_use) by (reflexivity || lia).
    eexists. split; [reflexivity |]. repeat split.
Qed.

Lemma process_state_ok (P M : Z) (remainder_mode : bool) (policy : sk_policy)
      (nspin nk nk_use r : Z) :
  1 <= M -> 0 <= r < P -> 0 <= nk_use ->
  exists self0 self j,
    pool_class.set_pool (fresh_pool P r) M remainder_mode = Py.Ok self0 /\
    process_state P M remainder_mode policy nspin nk nk_use r = Py.Ok self /\
    pool_id_of P M remainder_mode r = Some j /\
    pool_class.sk_list self =
      Some (pool_lists policy (pool_of (spec_pool_count P M)) nspin nk nk_use j) /\
    pool_class.para self = para_class.init_mpi P r /\
    pool_class.roots self = pool_class.roots self0 /\
    pool_class.rootcomm self = pool_class.rootcomm self0.
Proof.
  intros HM Hr Hk.
  pose proof (spec_pool_count_pos P M ltac:(lia) HM) as HN.
  destruct (set_pool_mpi P M r remainder_mode HM Hr)
    as (self0 & j & Hrun & Hid & _ & Hn & Hi & _ & Hpara & _).
  destruct (assign_by_id policy self0 _ j nspin nk nk_use Hn Hi HN Hk)
    as (self & Hassign & Hlist & Hpara' & Hroots & Hrootcomm).
  exists self0, self, j.
  split; [exact Hrun |]. split.
  - unfold process_state. rewrite Hrun. exact Hassign.
  - repeat split; try assumption. congruence.
Qed.

Lemma max_of_spec (x : Z) (xs : list Z) :
  exists m,
    PyX.max_of (x :: xs) = PyX.Ok m /\
    In m (x :: xs) /\ forall y, In y (x :: xs) -> y <= m.
Proof.
  simpl. eexists. split; [reflexivity |].
  revert x. induction xs as [| z xs IH]; intros x; simpl.
  - split; [now left |]. intros y [<- | []]. lia.
  - destruct (IH (Z.max x z)) as [Hin Hub]. split.
    + destruct Hin as [E | Hin]; [| right; now right].
      rewrite <- E. destruct (Z.max_spec x z) as [[_ ->] | [_ ->]];
        [right; now left | now left].
    + intros y [E | [E | Hy]].
      * specialize (Hub (Z.max x z) (or_introl eq_refl)). lia.
      * specialize (Hub (Z.max x z) (or_introl eq_refl)). lia.
      * apply Hub. now right.
Qed.

Lemma sk_info_on_root (peer : Z -> list (Z * Z)) (self : pool_class.t)
      (r0 : Z) (tl : list Z) (own : list (Z * Z)) :
  pool_class.rootcomm self = Some (Some (MPI.Intracomm (r0 :: tl))) ->
  pool_class.sk_list self = Some own ->
  pool_class.sk_info peer self =
  (let all :=
     map (fun r => if r =? para_class.rank (pool_class.para self)
                   then own else peer r) (r0 :: tl) in
   maxl <-- PyX.max_of (map (fun skl => Z.of_nat (length skl)) all) ;;
   PyX.Ok (all, maxl)).
Proof.
  intros Hrc Hl. unfold pool_class.sk_info. rewrite Hrc, Hl. simpl.
  unfold MPI.bcast, MPI.gather, MPI.Get_rank. simpl.
  rewrite Z.eqb_refl. reflexivity.
Qed.

Lemma sk_info_off_root (peer : Z -> list (Z * Z)) (self : pool_class.t)
      (own : list (Z * Z)) :
  pool_class.rootcomm self = Some (Some MPI.COMM_NULL) \/
  pool_class.rootcomm self = Some None ->
  pool_class.sk_list self = Some own ->
  pool_class.sk_info peer self = PyX.Ok ([own], Z.of_nat (length own)).
Proof.
  intros [Hrc | Hrc] Hl; unfold pool_class.sk_info; rewrite Hrc, Hl; reflexivity.
Qed.

(** X13: In a sound topology, once every process has run [set_pool] and the
    assignment method: on a pool root [sk_info] gathers the tuple lists of
    all pools by pool id, so [sk_list_all] has one entry per pool and holds
    every tuple of the work space once, and [sk_list_maxl] is the length of
    a longest entry; on any other process [sk_list_all] holds the own list
    only. *)
Theorem sk_info_gathers_work_space (P M : Z) (remainder_mode : bool)
        (policy : sk_policy) (nspin nk nk_use r : Z) :
  1 <= M -> 0 <= r < P -> 0 <= nk_use -> sound_topology P M remainder_mode ->
  exists self own b,
    process_state P M remainder_mode policy nspin nk nk_use r = Py.Ok self /\
    pool_class.sk_list self = Some own /\
    pool_class.isroot self = Py.Ok b /\
    (b = true ->
     exists all maxl,
       pool_class.sk_info
         (fun r' => sk_list_of
                      (process_state P M remainder_mode policy nspin nk nk_use r'))
         self = PyX.Ok (all, maxl) /\
       all = map (pool_lists policy (pool_of (spec_pool_count P M)) nspin nk nk_use)
                 (Py.range (spec_pool_count P M)) /\
       Permutation (concat all) (work_space nspin nk_use) /\
       In maxl (map (fun l => Z.of_nat (length l)) all) /\
       forall l, In l all -> Z.of_nat (length l) <= maxl) /\
    (b = false ->
     pool_class.sk_info
       (fun r' => sk_list_of
                    (process_state P M remainder_mode policy nspin nk nk_use r'))
       self = PyX.Ok ([own], Z.of_nat (length own))).
Proof.
  intros HM Hr Hk Hsound.
  pose proof (spec_pool_count_pos P M ltac:(lia) HM) as HN.
  set (N := spec_pool_count P M) in *.
  set (peer := fun r' => sk_list_of
                 (process_state P M remainder_mode policy nspin nk nk_use r')).
  destruct (process_state_ok P M remainder_mode policy nspin nk nk_use r HM Hr Hk)
    as (self0 & self & j & Hrun & Hstate & Hid & Hlist & Hpara & Hroots & Hrootcomm).
  destruct (roots_by_pool_id P M r remainder_mode HM Hr Hsound)
    as (self0' & root_of & Hrun' & Hroots0 & Hroot_of).
  assert (self0' = self0) by congruence. subst self0'.
  destruct (set_pool_mpi P M r remainder_mode HM Hr)
    as (self0' & j0 & Hrun'' & _ & _ & _ & _ & _ & _ & _ & _ & _ & Hroots1 & Hrc).
  assert (self0' = self0) by congruence. subst self0'.
  rewrite Hroots0 in Hroots1. injection Hroots1 as Hroots1.
  rewrite <- Hroots1 in Hrc. fold N in Hroots0, Hrc.
  rewrite Hroots0 in Hroots. rewrite Hrc in Hrootcomm.
  set (roots := map root_of (Py.range N)) in *.
  assert (Hpeer : forall j', 0 <= j' < N ->
            peer (root_of j') = pool_lists policy (pool_of N) nspin nk nk_use j').
  { intros j' Hj'. destruct (Hroot_of j' Hj') as [Hb Hidj]. unfold peer.
    destruct (process_state_ok P M remainder_mode policy nspin nk nk_use
                (root_of j') HM Hb Hk)
      as (_ & selfj & jj & _ & Hst & Hidjj & Hl & _).
    rewrite Hst. simpl. rewrite Hl. fold N. congruence. }
  exists self. eexists. exists (existsb (Z.eqb r) roots).
  split; [exact Hstate |]. split; [exact Hlist |]. split.
  { unfold pool_class.isroot. rewrite Hroots, Hpara. reflexivity. }
  unfold MPI.Create_group in Hrootcomm. fold roots in Hrootcomm.
  split; intros Hb; rewrite Hb in Hrootcomm.
  - assert (Hne : roots = root_of 0 :: map root_of (Py.range2 1 N)).
    { unfold roots, Py.range. now rewrite range2_cons by lia. }
    rewrite Hne in Hrootcomm.
    rewrite (sk_info_on_root peer self _ _ _ Hrootcomm Hlist).
    rewrite <- Hne, Hpara. cbv zeta. simpl para_class.rank.
    set (value := fun r0 => if r0 =? r
                            then pool_lists policy (pool_of N) nspin nk nk_use j
                            else peer r0).
    change (fun r0 : Z =>
              if r0 =? r
              then pool_lists policy (pool_of (spec_pool_count P M)) nspin nk nk_use j
              else peer r0) with value.
    assert (Hall : map value roots =
                   map (pool_lists policy (pool_of N) nspin nk nk_use) (Py.range N)).
    { unfold roots. rewrite map_map. apply map_ext_in.
      intros j' Hj'. apply in_range in Hj'. unfold value.
      destruct (Z.eqb_spec (root_of j') r) as [E | _]; [| now apply Hpeer].
      destruct (Hroot_of j' Hj') as [_ Hidj]. rewrite E in Hidj. congruence. }
    rewrite Hall.
    assert (Hcons : exists x xs,
              map (fun skl : list (Z * Z) => Z.of_nat (length skl))
                  (map (pool_lists policy (pool_of N) nspin nk nk_use) (Py.range N))
              = x :: xs).
    { unfold Py.range. rewrite range2_cons by lia. simpl. eauto. }
    destruct Hcons as (x & xs & Hcons). rewrite Hcons.
    destruct (max_of_spec x xs) as (m & Hm & Hin & Hub).
    rewrite Hm. simpl. do 2 eexists. split; [reflexivity |].
    split; [reflexivity |]. split; [| split].
    + rewrite <- flat_map_concat_map.
      apply (pool_lists_perm policy (pool_of N) N nspin nk nk_use Hk HN).
      intros j' _. split; reflexivity.
    + rewrite Hcons. exact Hin.
    + intros l Hl. apply Hub. rewrite <- Hcons.
      apply (in_map (fun skl : list (Z * Z) => Z.of_nat (length skl))). exact Hl.
  - apply sk_info_off_root; [now left | exact Hlist].
Qed.

Lemma sk_info_gathers_work_space_witness :
  exists self own b,
    process_state 10 3 false block 2 5 5 4 = Py.Ok self /\
    pool_class.sk_list self = Some own /\
    pool_class.isroot self = Py.Ok b /\
    (b = true ->
     exists all maxl,
       pool_class.sk_info
         (fun r' => sk_list_of (process_state 10 3 false block 2 5 5 r'))
         self = PyX.Ok (all, maxl) /\
       all = map (pool_lists block (pool_of (spec_pool_count 10 3)) 2 5 5)
                 (Py.range (spec_pool_count 10 3)) /\
       Permutation (concat all) (work_space 2 5) /\
       In maxl (map (fun l => Z.of_nat (length l)) all) /\
       forall l, In l all -> Z.of_nat (length l) <= maxl) /\
    (b = false ->
     pool_class.sk_info
       (fun r' => sk_list_of (process_state 10 3 false block 2 5 5 r'))
       self = PyX.Ok ([own], Z.of_nat (length own))).
Proof.
  apply (sk_info_gathers_work_space 10 3 false block 2 5 5 4); try lia.
  right. split; [lia | vm_compute; discriminate].
Defined.

(** * What the stray pool of an unsound contiguous topology receives *)

(** X14: Under the contiguous policy with [1 <= M <= P] and
    [P mod M > floor(P / M)], the last rank carries a pool id that is not
    below the pool count; the striped policy then gives it no tuple at all,
    and the block policy gives it only tuples whose k-index is [nk_use] or
    more, outside the work space. *)
Theorem stray_pool_work (P M : Z) (policy : sk_policy) (nspin nk nk_use : Z) :
  1 <= M -> M <= P -> P / M < P mod M -> 0 <= nk_use ->
  exists self j l,
    process_state P M false policy nspin nk nk_use (P - 1) = Py.Ok self /\
    pool_class.n self = Some (P / M) /\
    pool_class.i self = Some j /\ P / M <= j /\
    pool_class.sk_list self = Some l /\
    (policy = striped -> l = []) /\
    (policy = block -> forall s k, In (s, k) l -> nk_use <= k).
Proof.
  intros HM HMP Hover Hk.
  assert (Hclamp : spec_clamp P M = M)
    by (unfold spec_clamp; destruct (Z.ltb_spec P M); lia).
  assert (HNeq : spec_pool_count P M = P / M)
    by (unfold spec_pool_count; now rewrite Hclamp).
  pose proof (spec_pool_count_pos P M ltac:(lia) HM) as HN.
  rewrite HNeq in HN.
  destruct (contiguous_last_rank_overflow P M HM HMP Hover) as (j & Hid & Hj).
  destruct (set_pool_mpi P M (P - 1) false HM ltac:(lia))
    as (self0 & j0 & Hrun & Hid0 & _ & Hn & Hi & _).
  assert (j0 = j) by congruence. subst j0.
  rewrite HNeq in Hn.
  destruct (assign_by_id policy self0 (P / M) j nspin nk nk_use Hn Hi HN Hk)
    as (self & Hassign & Hlist & _).
  assert (Hn' : pool_class.n self = Some (P / M) /\ pool_class.i self = Some j).
  { destruct policy; simpl in Hassign.
    - rewrite (set_sk_list_v1_ok self0 (P / M) j nspin nk nk_use Hn Hi) in Hassign
        by lia.
      injection Hassign as <-. now split.
    - rewrite (set_sk_list_ok self0 (P / M) j nspin nk nk_use Hn Hi) in Hassign
        by lia.
      injection Hassign as <-. now split. }
  exists self, j. eexists.
  split; [unfold process_state; rewrite Hrun; exact Hassign |].
  split; [apply Hn' |]. split; [apply Hn' |]. split; [exact Hj |].
  split; [exact Hlist |]. split; intros ->.
  - destruct (pool_lists_striped (pool_of (P / M)) (P / M) nspin nk nk_use j
                eq_refl eq_refl HN) as [_ ->].
    apply filter_none. intros sk _. unfold owned_by, spec_owner.
    pose proof (Z.mod_pos_bound (global_offset nk sk) (P / M) ltac:(lia)).
    apply Z.eqb_neq. lia.
  - destruct (pool_lists_block (pool_of (P / M)) (P / M) nspin nk nk_use j
                eq_refl eq_refl HN Hk) as [_ ->].
    intros s k Hin. apply in_k_major in Hin. destruct Hin as [_ Hin].
    apply in_range2 in Hin. unfold block_start in Hin.
    pose proof (Z.mod_pos_bound nk_use (P / M) ltac:(lia)) as Hr.
    pose proof (Z_div_mod_eq_full nk_use (P / M)) as E.
    pose proof (Z.div_pos nk_use (P / M) Hk ltac:(lia)) as Hq.
    nia.
Qed.

Lemma stray_pool_work_witness :
  exists self j l,
    process_state 5 3 false block 2 5 5 (5 - 1) = Py.Ok self /\
    pool_class.n self = Some (5 / 3) /\
    pool_class.i self = Some j /\ 5 / 3 <= j /\
    pool_class.sk_list self = Some l /\
    (block = striped -> l = []) /\
    (block = block -> forall s k, In (s, k) l -> 5 <= k).
Proof.
  apply (stray_pool_work 5 3 block 2 5 5); try lia.
  vm_compute. reflexivity.
Defined.

(** * The reports: [info] *)

Lemma set_pool_keeps_pool_list (self self' : pool_class.t) (M : Z)
      (remainder_mode : bool) :
  pool_class.set_pool self M remainder_mode = Py.Ok self' ->
  pool_class.pool_list self' = pool_class.pool_list self.
Proof.
  unfold pool_class.set_pool.
  destruct (0 <? M); [| intros E; now injection E as <-].
  destruct (pool_class.topology _ _ _ _) as [[[npp n] i] | e]; simpl;
    [| discriminate].
  destruct (para_class.comm (pool_class.para self));
    intros E; injection E as <-; reflexivity.
Qed.

Lemma for_collect_some {A : Type} (l acc : list A) :
  PyX.for_ (map Some l)
    (fun entry acc' =>
       match entry with
       | Some x => PyX.Ok (acc' ++ [x])
       | None => PyX.Raise PyX.TypeError
       end) acc = PyX.Ok (acc ++ l).
Proof.
  revert acc. induction l as [| x l IH]; intros acc; simpl.
  - now rewrite app_nil_r.
  - rewrite IH, <- app_assoc. reflexivity.
Qed.

Lemma getitem_map_range {A : Type} (f : Z -> A) (N i_ : Z) :
  0 <= i_ < N -> PyX.getitem (map f (Py.range N)) i_ = PyX.Ok (f i_).
Proof.
  intros Hi. unfold PyX.getitem.
  destruct (Z.ltb_spec i_ 0); [lia |].
  destruct (Z.ltb_spec i_ 0); [lia |].
  unfold Py.range, Py.range2. rewrite map_map.
  rewrite (nth_error_map _ (Z.to_nat i_)).
  rewrite nth_error_seq.
  destruct (Nat.ltb_spec (Z.to_nat i_) (Z.to_nat (N - 0))) as [_ | Hge]; [| lia].
  simpl. do 2 f_equal. lia.
Qed.

Lemma for_rows (L : list (list Z)) (f : Z -> list Z) (c : bool)
      (l : list Z) (acc : list pool_class.info_row) :
  (forall i_, In i_ l -> PyX.getitem L i_ = PyX.Ok (f i_)) ->
  PyX.for_ l
    (fun i_ rows =>
       members <-- PyX.getitem L i_ ;;
       PyX.Ok (if c then rows ++ [(i_, Z.of_nat (length members), members)]
               else rows)) acc =
  PyX.Ok (if c
          then acc ++ map (fun i_ => (i_, Z.of_nat (length (f i_)), f i_)) l
          else acc).
Proof.
  revert acc. induction l as [| x l IH]; intros acc H; simpl.
  - destruct c; [now rewrite app_nil_r | reflexivity].
  - rewrite (H x) by now left. simpl.
    rewrite IH by (intros y Hy; apply H; now right).
    destruct c; [now rewrite <- app_assoc | reflexivity].
Qed.

Lemma world_facts (P M x : Z) (remainder_mode : bool) :
  1 <= M -> 0 <= x < P ->
  pool_class.set_pool (fresh_pool P x) M remainder_mode =
    Py.Ok (world_after_set_pool P M remainder_mode x) /\
  pool_class.para (world_after_set_pool P M remainder_mode x) =
    para_class.init_mpi P x /\
  pool_class.pool_list (world_after_set_pool P M remainder_mode x) = [] /\
  pool_class.n (world_after_set_pool P M remainder_mode x) =
    Some (spec_pool_count P M) /\
  pool_class.rootcomm (world_after_set_pool P M remainder_mode x) =
    Some (Some (MPI.Create_group (world_roots P M remainder_mode) x)) /\
  pool_class.info_mypool (world_after_set_pool P M remainder_mode x) =
    Py.Ok (if existsb (Z.eqb x) (world_roots P M remainder_mode)
           then Some (filter (same_pool P M remainder_mode x) (Py.range P))
           else None) /\
  exists c,
    pool_class.comm (world_after_set_pool P M remainder_mode x) = Some (Some c) /\
    MPI.is_valid c = true.
Proof.
  intros HM Hx.
  destruct (set_pool_mpi P M x remainder_mode HM Hx)
    as (self & j & Hrun & _ & _ & Hn & _ & _ & Hpara & Hcomm & _ & _ & _ & Hrc).
  pose proof (set_pool_keeps_pool_list _ _ _ _ Hrun) as Hpl.
  unfold world_after_set_pool. rewrite Hrun.
  split; [reflexivity |]. split; [exact Hpara |]. split; [exact Hpl |].
  split; [exact Hn |]. split; [exact Hrc |]. split.
  - unfold pool_class.info_mypool. rewrite Hcomm, Hpara. simpl.
    unfold MPI.gather, MPI.Get_rank. simpl.
    assert (Hself : same_pool P M remainder_mode x x = true)
      by now apply same_pool_iff.
    rewrite (index_filter_range _ P x Hx Hself), map_id.
    assert (E : existsb (Z.eqb x) (world_roots P M remainder_mode) =
                (Z.of_nat (length (filter (same_pool P M remainder_mode x)
                                          (Py.range x))) =? 0)).
    { destruct (Z.of_nat _ =? 0) eqn:Hz.
      - apply existsb_exists. exists x. split; [| apply Z.eqb_refl].
        apply filter_In. split; [now apply in_range | exact Hz].
      - destruct (existsb _ _) eqn:Hex; [| reflexivity].
        apply existsb_exists in Hex. destruct Hex as (y & Hy & Ey).
        apply Z.eqb_eq in Ey. subst y.
        apply filter_In in Hy. destruct Hy as [_ Hy]. congruence. }
    now rewrite E.
  - eexists. split; [exact Hcomm | reflexivity].
Qed.

Lemma world_roots_head (P M : Z) (remainder_mode : bool) :
  1 <= M -> 1 <= P ->
  exists tl, world_roots P M remainder_mode = 0 :: tl.
Proof.
  intros HM HP. unfold world_roots, Py.range.
  rewrite (range2_cons 0 P) by lia. simpl. eauto.
Qed.

Lemma world_roots_sound (P M : Z) (remainder_mode : bool) :
  1 <= M -> 1 <= P -> sound_topology P M remainder_mode ->
  exists root_of,
    world_roots P M remainder_mode =
      map root_of (Py.range (spec_pool_count P M)) /\
    forall j, 0 <= j < spec_pool_count P M ->
      0 <= root_of j < P /\
      pool_id_of P M remainder_mode (root_of j) = Some j.
Proof.
  intros HM HP Hsound.
  destruct (roots_by_pool_id P M 0 remainder_mode HM ltac:(lia) Hsound)
    as (self & root_of & Hrun & Hroots & Hroot_of).
  destruct (set_pool_mpi P M 0 remainder_mode HM ltac:(lia))
    as (self' & j & Hrun' & _ & _ & _ & _ & _ & _ & _ & _ & _ & Hroots' & _).
  assert (self' = self) by congruence. subst self'.
  exists root_of. split; [| exact Hroot_of].
  unfold world_roots. congruence.
Qed.

(** X15: In a sound topology, after [set_pool] on every process, [info] leaves on
    every process a [pool_list] whose entry [j] is the member list of pool
    [j]; world rank 0 prints one row per pool with its index, size and
    members, the other processes print no row; and a second call changes
    nothing. *)
Theorem info_reports_pools (P M r : Z) (remainder_mode : bool) :
  1 <= M -> 0 <= r < P -> sound_topology P M remainder_mode ->
  exists self' rows,
    pool_class.info (world_after_set_pool P M remainder_mode)
                    (world_after_set_pool P M remainder_mode r)
      = PyX.Ok (self', rows) /\
    pool_class.pool_list self' =
      map (pool_members P M remainder_mode) (Py.range (spec_pool_count P M)) /\
    rows = (if r =? 0
            then map (fun j => (j, pool_size P M remainder_mode j,
                                pool_members P M remainder_mode j))
                     (Py.range (spec_pool_count P M))
            else []) /\
    pool_class.info (world_after_set_pool P M remainder_mode) self'
      = PyX.Ok (self', rows).
Proof.
  intros HM Hr Hsound.
  pose proof (spec_pool_count_pos P M ltac:(lia) HM) as HN.
  set (w := world_after_set_pool P M remainder_mode).
  set (N := spec_pool_count P M) in *.
  set (ROOTS := world_roots P M remainder_mode).
  destruct (world_roots_head P M remainder_mode HM ltac:(lia)) as (tl & Hhead).
  destruct (world_roots_sound P M remainder_mode HM ltac:(lia) Hsound)
    as (root_of & Hsnd & Hroot_of).
  fold ROOTS in Hhead, Hsnd. fold N in Hsnd, Hroot_of.
  destruct (world_facts P M r remainder_mode HM Hr)
    as (_ & Hpara & Hpl & Hn & Hrc & Hmy & c & Hcomm & Hvalid).
  destruct (world_facts P M 0 remainder_mode HM ltac:(lia))
    as (_ & Hpara0 & _ & _ & Hrc0 & Hmy0 & _).
  fold w in Hpara, Hpl, Hn, Hrc, Hmy, Hcomm, Hpara0, Hrc0, Hmy0.
  fold N in Hn. fold ROOTS in Hrc, Hmy, Hrc0, Hmy0.
  (* what every root passes to the gather inside rootcomm *)
  assert (Hmypool : forall j, 0 <= j < N ->
            pool_class.info_mypool (w (root_of j)) =
            Py.Ok (Some (pool_members P M remainder_mode j))).
  { intros j Hj. destruct (Hroot_of j Hj) as [Hb Hid].
    destruct (world_facts P M (root_of j) remainder_mode HM Hb)
      as (_ & _ & _ & _ & _ & Hmyj & _).
    fold w in Hmyj. rewrite Hmyj.
    assert (Hin : existsb (Z.eqb (root_of j)) (world_roots P M remainder_mode) = true).
    { apply existsb_exists. exists (root_of j). split; [| apply Z.eqb_refl].
      fold ROOTS. rewrite Hsnd. apply in_map. now apply in_range. }
    rewrite Hin. do 2 f_equal. now apply same_pool_members. }
  (* the value world rank 0 broadcasts *)
  assert (Hbcast : pool_class.info_gathered w (w 0) =
                   Py.Ok (Some (map Some (map (pool_members P M remainder_mode)
                                              (Py.range N))))).
  { unfold pool_class.info_gathered. rewrite Hmy0, Hrc0, Hpara0. simpl.
    unfold MPI.Create_group. rewrite Hhead. simpl. rewrite <- Hhead.
    unfold MPI.gather, MPI.Get_rank. simpl. rewrite Hhead at 1. simpl.
    do 2 f_equal. rewrite Hsnd, !map_map. apply map_ext_in.
    intros j Hj. apply in_range in Hj.
    destruct (Z.eqb_spec (root_of j) 0) as [E | _].
    - pose proof (Hmypool j Hj) as Hmj. rewrite E, Hmy0, Hhead in Hmj.
      simpl in Hmj. congruence.
    - now rewrite (Hmypool j Hj). }
  (* the own gather does not fail *)
  assert (Hown : exists v, pool_class.info_gathered w (w r) = Py.Ok v).
  { unfold pool_class.info_gathered. rewrite Hmy, Hrc. simpl.
    unfold MPI.Create_group. destruct (existsb (Z.eqb r) ROOTS); eauto. }
  destruct Hown as (v & Hown).
  assert (Hrows : forall self1,
            pool_class.pool_list self1 =
              map (pool_members P M remainder_mode) (Py.range N) ->
            pool_class.n self1 = Some N ->
            pool_class.para self1 = para_class.init_mpi P r ->
            pool_class.info_table self1 =
            PyX.Ok (if r =? 0
                    then map (fun j => (j, pool_size P M remainder_mode j,
                                        pool_members P M remainder_mode j))
                             (Py.range N)
                    else [])).
  { intros self1 Hl1 Hn1 Hp1. unfold pool_class.info_table.
    rewrite Hn1, Hl1, Hp1. simpl.
    rewrite (for_rows _ (pool_members P M remainder_mode)).
    - simpl. destruct (r =? 0); reflexivity.
    - intros i_ Hi. apply in_range in Hi. now apply getitem_map_range. }
  set (self' := pool_class.with_pool_list (w r)
                  (map (pool_members P M remainder_mode) (Py.range N))).
  assert (Htable := Hrows self' eq_refl Hn Hpara).
  exists self'. eexists. split; [| split; [reflexivity | split; [reflexivity |]]].
  - unfold pool_class.info.
    assert (Hcollect : pool_class.info_collect w (w r) = PyX.Ok self').
    { unfold pool_class.info_collect. rewrite Hpl, Hpara, Hcomm. simpl.
      rewrite Hvalid, Hown. simpl. rewrite Hbcast. simpl.
      rewrite for_collect_some. reflexivity. }
    rewrite Hcollect. simpl. rewrite Htable. reflexivity.
  - unfold pool_class.info.
    assert (Hcollect : pool_class.info_collect w self' = PyX.Ok self').
    { unfold pool_class.info_collect, self'. simpl.
      unfold Py.range. rewrite range2_cons by lia. reflexivity. }
    rewrite Hcollect. simpl. rewrite Htable. reflexivity.
Qed.

Lemma info_reports_pools_witness :
  exists self' rows,
    pool_class.info (world_after_set_pool 10 3 true)
                    (world_after_set_pool 10 3 true 0)
      = PyX.Ok (self', rows) /\
    pool_class.pool_list self' =
      map (pool_members 10 3 true) (Py.range (spec_pool_count 10 3)) /\
    rows = (if 0 =? 0
            then map (fun j => (j, pool_size 10 3 true j, pool_members 10 3 true j))
                     (Py.range (spec_pool_count 10 3))
            else []) /\
    pool_class.info (world_after_set_pool 10 3 true) self' = PyX.Ok (self', rows).
Proof.
  apply (info_reports_pools 10 3 0 true); [lia | lia | now left].
Defined.

(** * The message buffer of [pool_class.log] *)

Lemma string_append_assoc (a b c : string) :
  String.append (String.append a b) c = String.append a (String.append b c).
Proof. induction a as [| ch a IH]; simpl; [reflexivity | now rewrite IH]. Qed.

Lemma string_append_nil_r (a : string) : String.append a EmptyString = a.
Proof. induction a as [| ch a IH]; simpl; [reflexivity | now rewrite IH]. Qed.

Lemma log_each_buffer (peer_msg : Z -> string) (self : pool_class.t)
      (msgs : list string) :
  exists self',
    pool_class.log_each peer_msg self msgs = PyX.Ok (self', []) /\
    pool_class.msg self' = String.append (pool_class.msg self) (buffered msgs) /\
    pool_class.rootcomm self' = pool_class.rootcomm self /\
    pool_class.para self' = pool_class.para self.
Proof.
  revert self. induction msgs as [| m msgs IH]; intros self.
  - exists self. simpl. now rewrite string_append_nil_r.
  - cbn [pool_class.log_each]. unfold pool_class.log. cbn [PyX.bind fst snd].
    destruct (IH (pool_class.with_msg self
                    (if (0 <? String.length m)%nat
                     then String.append (pool_class.msg self)
                            (String.append m pool_class.newline)
                     else pool_class.msg self)))
      as (self' & Hrun & Hmsg & Hrc & Hpara).
    exists self'. split; [now rewrite Hrun |]. split; [| now split].
    rewrite Hmsg. simpl.
    destruct (0 <? String.length m)%nat; [| reflexivity].
    now rewrite !string_append_assoc.
Qed.

Lemma log_blocks_enumerate (start : Z) (msgs : list string) :
  pool_class.log_blocks start msgs =
  map (fun im => pool_class.log_block (fst im) (snd im))
      (filter (fun im => (0 <? String.length (snd im))%nat)
              (combine (Py.range2 start (start + Z.of_nat (length msgs))) msgs)).
Proof.
  revert start. induction msgs as [| m msgs IH]; intros start.
  - now rewrite range2_empty by (simpl; lia).
  - cbn [length pool_class.log_blocks].
    rewrite range2_cons by lia. cbn [combine filter snd].
    rewrite IH.
    replace (start + 1 + Z.of_nat (length msgs))
      with (start + Z.of_nat (S (length msgs))) by lia.
    destruct (0 <? String.length m)%nat; reflexivity.
Qed.

(** X16: Buffered [log] calls print nothing (the list of the texts printed
    during the run is empty) and append each non-empty message and a line
    feed to the buffer, in call order; the flush that follows empties the
    buffer.  On a process without a root communicator (no MPI, or not a
    pool root) the flush prints the buffer as it is; on the process of rank 0
    of the root communicator it prints one labelled block per pool whose
    buffer is not empty, in the order of the roots, and nothing for the
    others. *)
Theorem log_buffers_then_flushes (peer_msg : Z -> string) (self : pool_class.t)
        (msgs : list string) (c : option MPI.Comm) :
  pool_class.rootcomm self = Some c ->
  exists self1 self2 printed,
    pool_class.log_each peer_msg self msgs = PyX.Ok (self1, []) /\
    pool_class.msg self1 = String.append (pool_class.msg self) (buffered msgs) /\
    pool_class.log peer_msg self1 EmptyString true = PyX.Ok (self2, printed) /\
    pool_class.msg self2 = EmptyString /\
    (c = None \/ c = Some MPI.COMM_NULL -> printed = [pool_class.msg self1]) /\
    (forall tl,
       c = Some (MPI.Intracomm (para_class.rank (pool_class.para self) :: tl)) ->
       let bufs :=
         map (fun r => if r =? para_class.rank (pool_class.para self)
                       then pool_class.msg self1 else peer_msg r)
             (para_class.rank (pool_class.para self) :: tl) in
       printed =
       map (fun im => pool_class.log_block (fst im) (snd im))
           (filter (fun im => (0 <? String.length (snd im))%nat)
                   (combine (Py.range (Z.of_nat (length bufs))) bufs))).
Proof.
  intros Hrc.
  destruct (log_each_buffer peer_msg self msgs)
    as (self1 & Hrun & Hmsg & Hrc1 & Hpara1).
  rewrite Hrc in Hrc1.
  exists self1.
  unfold pool_class.log. rewrite Hrc1, Hpara1. simpl.
  destruct c as [[| members] |]; simpl.
  - do 2 eexists. split; [exact Hrun |]. split; [exact Hmsg |].
    split; [reflexivity |]. split; [reflexivity |]. split; [reflexivity |].
    intros tl H. discriminate H.
  - unfold MPI.gather, MPI.Get_rank. simpl.
    destruct (MPI.index (para_class.rank (pool_class.para self)) members =? 0)
      eqn:Hidx; simpl.
    + do 2 eexists. split; [exact Hrun |]. split; [exact Hmsg |].
      split; [reflexivity |]. split; [reflexivity |]. split.
      * intros [H | H]; discriminate H.
      * intros tl H. injection H as ->. cbv zeta.
        rewrite log_blocks_enumerate. reflexivity.
    + do 2 eexists. split; [exact Hrun |]. split; [exact Hmsg |].
      split; [reflexivity |]. split; [reflexivity |]. split.
      * intros [H | H]; discriminate H.
      * intros tl H. injection H as ->. simpl in Hidx.
        rewrite Z.eqb_refl in Hidx. discriminate Hidx.
  - do 2 eexists. split; [exact Hrun |]. split; [exact Hmsg |].
    split; [reflexivity |]. split; [reflexivity |]. split; [reflexivity |].
    intros tl H. discriminate H.
Qed.

Lemma log_buffers_then_flushes_witness :
  exists self1 self2 printed,
    pool_class.log_each (fun _ => EmptyString) (world_after_set_pool 4 2 true 0)
      ["a"%string; EmptyString; "b"%string] = PyX.Ok (self1, []) /\
    pool_class.msg self1 =
      String.append (pool_class.msg (world_after_set_pool 4 2 true 0))
        (buffered ["a"%string; EmptyString; "b"%string]) /\
    pool_class.log (fun _ => EmptyString) self1 EmptyString true
      = PyX.Ok (self2, printed) /\
    pool_class.msg self2 = EmptyString /\
    (Some (MPI.Intracomm [0; 1]) = None \/
     Some (MPI.Intracomm [0; 1]) = Some MPI.COMM_NULL ->
     printed = [pool_class.msg self1]) /\
    (forall tl,
       Some (MPI.Intracomm [0; 1]) =
       Some (MPI.Intracomm
               (para_class.rank (pool_class.para (world_after_set_pool 4 2 true 0))
                  :: tl)) ->
       let bufs :=
         map (fun r =>
                if r =? para_class.rank
                          (pool_class.para (world_after_set_pool 4 2 true 0))
                then pool_class.msg self1 else EmptyString)
             (para_class.rank (pool_class.para (world_after_set_pool 4 2 true 0))
                :: tl) in
       printed =
       map (fun im => pool_class.log_block (fst im) (snd im))
           (filter (fun im => (0 <? String.length (snd im))%nat)
                   (combine (Py.range (Z.of_nat (length bufs))) bufs))).
Proof.
  apply (log_buffers_then_flushes (fun _ => EmptyString)
           (world_after_set_pool 4 2 true 0)
           ["a"%string; EmptyString; "b"%string]
           (Some (MPI.Intracomm [0; 1]))).
  reflexivity.
Defined.
